(** * project_y: an HTTP fan-out gateway

    A shallow embedding of [project_y.py]: the value objects ([Upstream],
    [ApiResponse]), the single outbound call ([send_request]) and the
    handler ([gateway]) with its reconciliation of several upstream
    replies into one.

    Conventions of the embedding:
    - a Python [str] is the list of its code points, [bytes] a list of
      [Byte.byte];
    - a header mapping is a finite map from [str] to [str];
    - a Python [dict] that ends up serialised keeps its insertion order
      and is an association list updated in place ([dict_set]);
    - a call that may raise returns an [outcome];
    - the handler runs in a small state monad over the log, the
      transaction-id slot and the source of fresh identifiers. *)

From Stdlib Require Import ZArith NArith List Lia DecimalFacts DecimalPos.
From Stdlib.Strings Require Import String Ascii Byte.
From stdpp Require Import base option list gmap.
Import ListNotations.

Local Open Scope Z_scope.
Set Warnings "-clear-no-such-hyp".

(** ** Python values *)

Abbreviation str := (list N).
Abbreviation bytes := (list byte).

(** Headers, as a mapping from names to values. The names are kept
    and compared as they are written; aiohttp's [CIMultiDict] ignores
    their case, so that a header [host] of the request is replaced by
    [send_request] where it is kept here next to [Host]. *)
Abbreviation Headers := (gmap (list N) (list N)).

(** An ASCII literal as a [str] and as [bytes]. *)
Definition u (s : string) : str := map Byte.to_N (list_byte_of_string s).
Definition b (s : string) : bytes := list_byte_of_string s.

(** The exception classes the program names in an [except] clause, the
    two subclasses of [ValueError] the JSON and text decoders raise, and
    everything else. *)
Inductive exn : Type :=
  | ClientConnectorError
  | IOError
  | ValueError
  | JSONDecodeError
  | UnicodeDecodeError
  | OtherError (name : string).

(** [isinstance(e, ValueError)]. *)
Definition is_ValueError (e : exn) : bool :=
  match e with
  | ValueError | JSONDecodeError | UnicodeDecodeError => true
  | _ => false
  end.

(** [isinstance(e, aiohttp.client_exceptions.ClientConnectorError)]. *)
Definition is_ClientConnectorError (e : exn) : bool :=
  match e with
  | ClientConnectorError => true
  | _ => false
  end.

(** [isinstance(e, IOError)]; [ClientConnectorError] derives from
    [OSError], which is [IOError]. *)
Definition is_IOError (e : exn) : bool :=
  match e with
  | IOError | ClientConnectorError => true
  | _ => false
  end.

Inductive outcome (A : Type) : Type :=
  | Returns (a : A)
  | Raises (e : exn).
Arguments Returns {A} a.
Arguments Raises {A} e.

Definition obind {A B : Type} (o : outcome A) (k : A -> outcome B) : outcome B :=
  match o with
  | Returns a => k a
  | Raises e => Raises e
  end.

(** [try: o except <class>: handler]. *)
Definition try_except {A : Type} (o : outcome A) (catches : exn -> bool)
    (handler : exn -> outcome A) : outcome A :=
  match o with
  | Returns a => Returns a
  | Raises e => if catches e then handler e else Raises e
  end.

(** What [json.loads] builds. A float is carried as the literal it was
    read from. *)
#[warnings="-register-all"]
Inductive value : Type :=
  | VNone
  | VBool (x : bool)
  | VInt (z : Z)
  | VFloat (literal : str)
  | VStr (s : str)
  | VList (items : list value)
  | VDict (items : list (str * value)).

(** ** Ordered dictionaries *)

Section Dict.
Context {V : Type}.

(** [d[k] = v]: an existing key keeps its position and takes the new
    value, a new key goes to the end. *)
Fixpoint dict_set (k : str) (v : V) (d : list (str * V)) : list (str * V) :=
  match d with
  | [] => [(k, v)]
  | (k', v') :: d' =>
      if decide (k' = k) then (k, v) :: d' else (k', v') :: dict_set k v d'
  end.

Fixpoint dict_get (k : str) (d : list (str * V)) : option V :=
  match d with
  | [] => None
  | (k', v') :: d' => if decide (k' = k) then Some v' else dict_get k d'
  end.

Definition dict_keys (d : list (str * V)) : list str := d.*1.
End Dict.

(** ** Value objects *)

Record ClientResponse : Type := mkClientResponse {
  resp_status : Z;
  resp_headers : Headers;
  resp_read : outcome bytes
}.

(** [session.request(method, url, headers=..., data=...)]. *)
Definition Session : Type :=
  str -> str -> Headers -> option bytes -> outcome ClientResponse.

Module Options.
Definition conn_timeout : Z := 30.
Definition read_timeout : Z := 30.
Definition default_schema : str := u "http".
End Options.

Record Upstream : Type := mkUpstream {
  name : str;
  host : str;
  port : Z;
  endpoint : str;
  session : Session
}.

Record ApiResponse : Type := mkApiResponse {
  body : bytes;
  status : Z;
  headers : Headers;
  rname : str
}.

(** The payload handed to [web.Response]: [body=] takes bytes or text,
    [text=] takes text. *)
Inductive payload : Type :=
  | Bytes (x : bytes)
  | Text (x : str).

Record Response : Type := mkResponse {
  r_body : payload;
  r_status : Z;
  r_headers : Headers
}.

(** ** Text helpers *)

(** The decimal digits of [str(n)]. *)
Fixpoint str_of_uint (d : Decimal.uint) : str :=
  match d with
  | Decimal.Nil => []
  | Decimal.D0 d' => 48%N :: str_of_uint d'
  | Decimal.D1 d' => 49%N :: str_of_uint d'
  | Decimal.D2 d' => 50%N :: str_of_uint d'
  | Decimal.D3 d' => 51%N :: str_of_uint d'
  | Decimal.D4 d' => 52%N :: str_of_uint d'
  | Decimal.D5 d' => 53%N :: str_of_uint d'
  | Decimal.D6 d' => 54%N :: str_of_uint d'
  | Decimal.D7 d' => 55%N :: str_of_uint d'
  | Decimal.D8 d' => 56%N :: str_of_uint d'
  | Decimal.D9 d' => 57%N :: str_of_uint d'
  end.

(** [str(n)] for an integer. *)
Definition str_of_Z (z : Z) : str :=
  match Z.to_int z with
  | Decimal.Pos d => str_of_uint d
  | Decimal.Neg d => 45%N :: str_of_uint d
  end.

(** [str.isspace] on one code point. *)
Definition isspace (c : N) : bool :=
  ((9 <=? c) && (c <=? 13) || (28 <=? c) && (c <=? 32)
   || (c =? 133) || (c =? 160) || (c =? 5760)
   || (8192 <=? c) && (c <=? 8202)
   || (c =? 8232) || (c =? 8233) || (c =? 8239) || (c =? 8287)
   || (c =? 12288))%N.

Fixpoint lstrip (s : str) : str :=
  match s with
  | [] => []
  | c :: s' => if isspace c then lstrip s' else s
  end.

Definition rstrip (s : str) : str := rev (lstrip (rev s)).

(** [s.strip()]. *)
Definition strip (s : str) : str := rstrip (lstrip s).

Global Instance outcome_ret : MRet outcome := @Returns.
Global Instance outcome_bind : MBind outcome := fun A B k o => obind o k.

(** ** Text decoding

    [bytes.decode] for the encodings [json.loads] may pick. With
    [surrogatepass] a surrogate code point is let through, without it
    the decoder is strict. *)

Module Codec.
Local Open Scope N_scope.

Definition is_cont (x : N) : bool := (128 <=? x) && (x <=? 191).
Definition is_surrogate (c : N) : bool := (55296 <=? c) && (c <=? 57343).
Definition is_high (c : N) : bool := (55296 <=? c) && (c <=? 56319).
Definition is_low (c : N) : bool := (56320 <=? c) && (c <=? 57343).

(** A Unicode scalar value: a code point that is no surrogate. *)
Definition is_scalar (c : N) : bool := (c <? 1114112) && negb (is_surrogate c).

Fixpoint utf_8 (surrogatepass : bool) (bs : list N) : option str :=
  match bs with
  | [] => Some []
  | b0 :: t0 =>
      if b0 <? 128 then cons b0 <$> utf_8 surrogatepass t0
      else if (194 <=? b0) && (b0 <=? 223) then
        match t0 with
        | b1 :: t1 =>
            if is_cont b1
            then cons ((b0 - 192) * 64 + (b1 - 128)) <$> utf_8 surrogatepass t1
            else None
        | _ => None
        end
      else if (224 <=? b0) && (b0 <=? 239) then
        match t0 with
        | b1 :: b2 :: t2 =>
            let c := (b0 - 224) * 4096 + (b1 - 128) * 64 + (b2 - 128) in
            if is_cont b1 && is_cont b2 && (2048 <=? c)
               && (surrogatepass || negb (is_surrogate c))
            then cons c <$> utf_8 surrogatepass t2
            else None
        | _ => None
        end
      else if (240 <=? b0) && (b0 <=? 244) then
        match t0 with
        | b1 :: b2 :: b3 :: t3 =>
            let c := (b0 - 240) * 262144 + (b1 - 128) * 4096
                     + (b2 - 128) * 64 + (b3 - 128) in
            if is_cont b1 && is_cont b2 && is_cont b3
               && (65536 <=? c) && (c <=? 1114111)
            then cons c <$> utf_8 surrogatepass t3
            else None
        | _ => None
        end
      else None
  end.

(** Drops a leading byte-order mark, as [utf-8-sig] does. *)
Definition utf_8_sig (surrogatepass : bool) (bs : list N) : option str :=
  match bs with
  | 239 :: 187 :: 191 :: t => utf_8 surrogatepass t
  | _ => utf_8 surrogatepass bs
  end.

(** 16-bit code units, big- or little-endian. *)
Fixpoint units16 (big : bool) (bs : list N) : option (list N) :=
  match bs with
  | [] => Some []
  | x :: y :: t =>
      cons (if big then x * 256 + y else y * 256 + x) <$> units16 big t
  | _ => None
  end.

Fixpoint join16 (surrogatepass : bool) (us : list N) : option str :=
  match us with
  | [] => Some []
  | h :: t =>
      if is_high h then
        match t with
        | l :: t' =>
            if is_low l
            then cons (65536 + (h - 55296) * 1024 + (l - 56320))
                   <$> join16 surrogatepass t'
            else if surrogatepass then cons h <$> join16 surrogatepass t
            else None
        | [] => if surrogatepass then Some [h] else None
        end
      else if is_low h then
        if surrogatepass then cons h <$> join16 surrogatepass t else None
      else cons h <$> join16 surrogatepass t
  end.

Definition utf_16 (big surrogatepass : bool) (bs : list N) : option str :=
  units16 big bs ≫= join16 surrogatepass.

Fixpoint utf_32 (big surrogatepass : bool) (bs : list N) : option str :=
  match bs with
  | [] => Some []
  | w :: x :: y :: z :: t =>
      let c := if big then ((w * 256 + x) * 256 + y) * 256 + z
               else ((z * 256 + y) * 256 + x) * 256 + w in
      if (c <=? 1114111) && (surrogatepass || negb (is_surrogate c))
      then cons c <$> utf_32 big surrogatepass t
      else None
  | _ => None
  end.

(** The encodings [json.detect_encoding] tells apart. *)
Inductive encoding : Type :=
  | UTF_8 | UTF_8_SIG
  | UTF_16 | UTF_16_BE | UTF_16_LE
  | UTF_32 | UTF_32_BE | UTF_32_LE.

Definition decode_N (enc : encoding) (surrogatepass : bool) (bs : list N)
    : option str :=
  match enc with
  | UTF_8 => utf_8 surrogatepass bs
  | UTF_8_SIG => utf_8_sig surrogatepass bs
  | UTF_16_BE => utf_16 true surrogatepass bs
  | UTF_16_LE => utf_16 false surrogatepass bs
  | UTF_16 =>
      match bs with
      | 254 :: 255 :: t => utf_16 true surrogatepass t
      | 255 :: 254 :: t => utf_16 false surrogatepass t
      | _ => utf_16 false surrogatepass bs
      end
  | UTF_32_BE => utf_32 true surrogatepass bs
  | UTF_32_LE => utf_32 false surrogatepass bs
  | UTF_32 =>
      match bs with
      | 0 :: 0 :: 254 :: 255 :: t => utf_32 true surrogatepass t
      | 255 :: 254 :: 0 :: 0 :: t => utf_32 false surrogatepass t
      | _ => utf_32 false surrogatepass bs
      end
  end.

(** [data.decode(enc, errors)]: a [UnicodeDecodeError] on malformed
    input. *)
Definition decode (enc : encoding) (surrogatepass : bool) (data : bytes)
    : outcome str :=
  match decode_N enc surrogatepass (map Byte.to_N data) with
  | Some s => Returns s
  | None => Raises UnicodeDecodeError
  end.
End Codec.

(** [data.decode("utf-8")] *)
Definition decode_utf8 (data : bytes) : outcome str :=
  Codec.decode Codec.UTF_8 false data.

(** ** The JSON library

    [json.loads] and [json.dumps] with their default arguments, after
    CPython's [json] package: [detect_encoding], the scanner
    ([scan_once], [scanstring], the object and array loops) and the
    encoder with [ensure_ascii]. The scanner recurses on [fuel], one
    unit per nested call; running out of it is a [RecursionError].
    [loads] gives it fuel for any text, where CPython stops at the
    recursion limit of the interpreter. *)

Module Json.
Local Open Scope N_scope.

Definition detect_encoding (data : list N) : Codec.encoding :=
  match data with
  | 0 :: 0 :: 254 :: 255 :: _ | 255 :: 254 :: 0 :: 0 :: _ => Codec.UTF_32
  | 254 :: 255 :: _ | 255 :: 254 :: _ => Codec.UTF_16
  | 239 :: 187 :: 191 :: _ => Codec.UTF_8_SIG
  | b0 :: b1 :: b2 :: b3 :: _ =>
      if b0 =? 0 then (if b1 =? 0 then Codec.UTF_32_BE else Codec.UTF_16_BE)
      else if b1 =? 0
      then (if (b2 =? 0) && (b3 =? 0) then Codec.UTF_32_LE else Codec.UTF_16_LE)
      else Codec.UTF_8
  | [b0; b1] =>
      if b0 =? 0 then Codec.UTF_16_BE
      else if b1 =? 0 then Codec.UTF_16_LE
      else Codec.UTF_8
  | _ => Codec.UTF_8
  end.

Definition is_ws (c : N) : bool :=
  (c =? 32) || (c =? 9) || (c =? 10) || (c =? 13).

Fixpoint skip_ws (s : str) : str :=
  match s with
  | c :: t => if is_ws c then skip_ws t else s
  | [] => []
  end.

Definition is_digit (c : N) : bool := (48 <=? c) && (c <=? 57).

Definition hexval (c : N) : option N :=
  if is_digit c then Some (c - 48)
  else if (97 <=? c) && (c <=? 102) then Some (c - 87)
  else if (65 <=? c) && (c <=? 70) then Some (c - 55)
  else None.

Definition hex4 (a b c d : N) : option N :=
  x ← hexval a; y ← hexval b; z ← hexval c; w ← hexval d;
  Some (((x * 16 + y) * 16 + z) * 16 + w).

(** The one-letter escapes of [BACKSLASH]. *)
Definition backslash (c : N) : option N :=
  if c =? 34 then Some 34 else if c =? 92 then Some 92
  else if c =? 47 then Some 47 else if c =? 98 then Some 8
  else if c =? 102 then Some 12 else if c =? 110 then Some 10
  else if c =? 114 then Some 13 else if c =? 116 then Some 9
  else None.

(** [scanstring] in strict mode, from just after the opening quote:
    the decoded text and what follows the closing quote. *)
Fixpoint scanstring (s : str) : option (str * str) :=
  match s with
  | [] => None
  | c :: t =>
      if c =? 34 then Some ([], t)
      else if c =? 92 then
        match t with
        | [] => None
        | e :: t1 =>
            if e =? 117 then
              match t1 with
              | h1 :: h2 :: h3 :: h4 :: t2 =>
                  uni ← hex4 h1 h2 h3 h4;
                  match t2 with
                  | e1 :: e2 :: k1 :: k2 :: k3 :: k4 :: t3 =>
                      if Codec.is_high uni && (e1 =? 92) && (e2 =? 117) then
                        uni2 ← hex4 k1 k2 k3 k4;
                        if Codec.is_low uni2 then
                          '(x, r) ← scanstring t3;
                          Some ((65536 + (uni - 55296) * 1024 + (uni2 - 56320)) :: x, r)
                        else
                          '(x, r) ← scanstring t2; Some (uni :: x, r)
                      else
                        '(x, r) ← scanstring t2; Some (uni :: x, r)
                  | _ => '(x, r) ← scanstring t2; Some (uni :: x, r)
                  end
              | _ => None
              end
            else
              ch ← backslash e;
              '(x, r) ← scanstring t1; Some (ch :: x, r)
        end
      else if c <? 32 then None
      else '(x, r) ← scanstring t; Some (c :: x, r)
  end.

Fixpoint span_digits (s : str) : str * str :=
  match s with
  | c :: t =>
      if is_digit c then let '(ds, r) := span_digits t in (c :: ds, r)
      else ([], s)
  | [] => ([], [])
  end.

(** [NUMBER_RE]: the integer part, the fraction and the exponent (each
    possibly empty) and the rest of the input. *)
Definition match_number (s : str) : option (str * str * str * str) :=
  let '(sign, s1) :=
    match s with
    | c :: t => if c =? 45 then ([45], t) else ([], s)
    | [] => ([], s)
    end in
  '(integer, r) ←
    match s1 with
    | c :: t =>
        if c =? 48 then Some (sign ++ [48], t)
        else if is_digit c
        then let '(ds, r) := span_digits t in Some (sign ++ c :: ds, r)
        else None
    | [] => None
    end;
  let '(frac, r1) :=
    match r with
    | c :: t =>
        if c =? 46 then
          match span_digits t with
          | ([], _) => ([], r)
          | (ds, r') => (46 :: ds, r')
          end
        else ([], r)
    | [] => ([], r)
    end in
  let '(exp, r2) :=
    match r1 with
    | e :: t =>
        if (e =? 101) || (e =? 69) then
          let '(sg, t') :=
            match t with
            | g :: t'' => if (g =? 43) || (g =? 45) then ([g], t'') else ([], t)
            | [] => ([], t)
            end in
          match span_digits t' with
          | ([], _) => ([], r1)
          | (ds, r') => (e :: sg ++ ds, r')
          end
        else ([], r1)
    | [] => ([], r1)
    end in
  Some (integer, frac, exp, r2).

(** [int(literal)] for a literal matched by [NUMBER_RE], without the
    bound that CPython 3.11 puts on the number of digits. *)
Definition int_of_digits (ds : str) : Z :=
  fold_left (fun acc c => (acc * 10 + Z.of_N (c - 48))%Z) ds 0%Z.

Definition parse_int (literal : str) : Z :=
  match literal with
  | c :: ds => if c =? 45 then (- int_of_digits ds)%Z else int_of_digits literal
  | [] => int_of_digits literal
  end.

(** [s[idx:idx + len(w)] == w]: the rest after [w], if [s] starts
    with it. *)
Fixpoint starts_with (w s : str) : option str :=
  match w, s with
  | [], _ => Some s
  | a :: w', c :: s' => if a =? c then starts_with w' s' else None
  | _ :: _, [] => None
  end.

Definition RecursionError : exn := OtherError "RecursionError".

(** [dict(pairs)] *)
Definition dict_of_pairs (pairs : list (str * value)) : list (str * value) :=
  fold_left (fun d kv => dict_set kv.1 kv.2 d) pairs [].

Fixpoint scan_once (fuel : nat) (s : str) : outcome (value * str) :=
  match fuel with
  | O => Raises RecursionError
  | S fuel' =>
      match s with
      | [] => Raises JSONDecodeError
      | c :: t =>
          if c =? 34 then
            match scanstring t with
            | Some (x, r) => Returns (VStr x, r)
            | None => Raises JSONDecodeError
            end
          else if c =? 123 then
            (* JSONObject *)
            match skip_ws t with
            | c1 :: r =>
                if c1 =? 125 then Returns (VDict [], r)
                else if c1 =? 34 then object_loop fuel' [] r
                else Raises JSONDecodeError
            | [] => Raises JSONDecodeError
            end
          else if c =? 91 then
            (* JSONArray *)
            match skip_ws t with
            | c1 :: r =>
                if c1 =? 93 then Returns (VList [], r)
                else array_loop fuel' [] (c1 :: r)
            | [] => array_loop fuel' [] []
            end
          else
            match starts_with (u "null") s, starts_with (u "true") s,
                  starts_with (u "false") s with
            | Some r, _, _ => Returns (VNone, r)
            | _, Some r, _ => Returns (VBool true, r)
            | _, _, Some r => Returns (VBool false, r)
            | _, _, _ =>
                match match_number s with
                | Some (integer, frac, exp, r) =>
                    match frac, exp with
                    | [], [] => Returns (VInt (parse_int integer), r)
                    | _, _ => Returns (VFloat (integer ++ frac ++ exp), r)
                    end
                | None =>
                    match starts_with (u "NaN") s, starts_with (u "Infinity") s,
                          starts_with (u "-Infinity") s with
                    | Some r, _, _ => Returns (VFloat (u "NaN"), r)
                    | _, Some r, _ => Returns (VFloat (u "Infinity"), r)
                    | _, _, Some r => Returns (VFloat (u "-Infinity"), r)
                    | _, _, _ => Raises JSONDecodeError
                    end
                end
            end
      end
  end

(** The loop of [JSONArray], at the start of an element. *)
with array_loop (fuel : nat) (values : list value) (s : str)
    : outcome (value * str) :=
  match fuel with
  | O => Raises RecursionError
  | S fuel' =>
      '(v, r) ← scan_once fuel' s;
      match skip_ws r with
      | c :: r1 =>
          if c =? 93 then Returns (VList (values ++ [v]), r1)
          else if c =? 44 then array_loop fuel' (values ++ [v]) (skip_ws r1)
          else Raises JSONDecodeError
      | [] => Raises JSONDecodeError
      end
  end

(** The loop of [JSONObject], just after the opening quote of a key. *)
with object_loop (fuel : nat) (pairs : list (str * value)) (s : str)
    : outcome (value * str) :=
  match fuel with
  | O => Raises RecursionError
  | S fuel' =>
      match scanstring s with
      | None => Raises JSONDecodeError
      | Some (key, r) =>
          match skip_ws r with
          | c0 :: r1 =>
              if c0 =? 58 then
                '(v, r2) ← scan_once fuel' (skip_ws r1);
                match skip_ws r2 with
                | c :: r3 =>
                    if c =? 125
                    then Returns (VDict (dict_of_pairs (pairs ++ [(key, v)])), r3)
                    else if c =? 44 then
                      match skip_ws r3 with
                      | c4 :: r4 =>
                          if c4 =? 34
                          then object_loop fuel' (pairs ++ [(key, v)]) r4
                          else Raises JSONDecodeError
                      | [] => Raises JSONDecodeError
                      end
                    else Raises JSONDecodeError
                | [] => Raises JSONDecodeError
                end
              else Raises JSONDecodeError
          | [] => Raises JSONDecodeError
          end
      end
  end.

(** [JSONDecoder.decode]: one value between optional whitespace, and
    nothing after it. *)
Definition decode (s : str) : outcome value :=
  '(v, r) ← scan_once (S (2 * length s)) (skip_ws s);
  match skip_ws r with
  | [] => Returns v
  | _ => Raises JSONDecodeError
  end.

(** What a step of the scanner may come to on [s]: a value with a
    strictly shorter rest, or a [JSONDecodeError]. *)
Definition scanned (s : str) (o : outcome (value * str)) : Prop :=
  match o with
  | Returns (_, r) => (length r < length s)%nat
  | Raises e => e = JSONDecodeError
  end.

(** [json.loads(data)] for [bytes]. *)
Definition loads (data : bytes) : outcome value :=
  s ← Codec.decode (detect_encoding (map Byte.to_N data)) true data;
  decode s.

(** *** The encoder *)

Definition hexdigit (x : N) : N := if x <? 10 then 48 + x else 87 + x.

(** ['\\u{0:04x}'.format(n)] *)
Definition u_escape (n : N) : str :=
  [92; 117; hexdigit (n / 4096 mod 16); hexdigit (n / 256 mod 16);
   hexdigit (n / 16 mod 16); hexdigit (n mod 16)].

(** The replacement of one code point under [ESCAPE_ASCII]. *)
Definition escape_char (c : N) : str :=
  if c =? 34 then [92; 34]
  else if c =? 92 then [92; 92]
  else if c =? 10 then [92; 110]
  else if c =? 13 then [92; 114]
  else if c =? 9 then [92; 116]
  else if c =? 12 then [92; 102]
  else if c =? 8 then [92; 98]
  else if (32 <=? c) && (c <=? 126) then [c]
  else if c <? 65536 then u_escape c
  else
    let v := c - 65536 in
    u_escape (55296 + (v / 1024) mod 1024) ++ u_escape (56320 + v mod 1024).

(** [py_encode_basestring_ascii] *)
Definition encode_string (s : str) : str :=
  34 :: flat_map escape_char s ++ [34].

(** [', '.join(parts)] *)
Fixpoint join (parts : list str) : str :=
  match parts with
  | [] => []
  | [p] => p
  | p :: rest => p ++ [44; 32] ++ join rest
  end.

(** [json.dumps], a float being written as the literal it was read
    from; see [iterencode] for the encoder with [float.__repr__]. *)
Fixpoint dumps (v : value) : str :=
  match v with
  | VNone => u "null"
  | VBool true => u "true"
  | VBool false => u "false"
  | VInt z => str_of_Z z
  | VFloat literal => literal
  | VStr s => encode_string s
  | VList items => 91 :: join (map dumps items) ++ [93]
  | VDict items =>
      123 :: join (map (fun kv => encode_string kv.1 ++ [58; 32] ++ dumps kv.2) items)
        ++ [125]
  end.

(** [_make_iterencode] with the default arguments of [json.dumps]:
    [ensure_ascii], the separators [", "] and [": "], no indentation.
    As there, the text of a float is given by [floatstr]:
    [float.__repr__] of the float the literal denotes ([1.5] for
    [1.50], [100.0] for [1E2]), or [NaN], [Infinity], [-Infinity]. *)
Fixpoint iterencode (floatstr : str -> str) (v : value) : str :=
  match v with
  | VNone => u "null"
  | VBool true => u "true"
  | VBool false => u "false"
  | VInt z => str_of_Z z
  | VFloat literal => floatstr literal
  | VStr s => encode_string s
  | VList items => 91 :: join (map (iterencode floatstr) items) ++ [93]
  | VDict items =>
      123 :: join (map (fun kv => encode_string kv.1 ++ [58; 32]
                                  ++ iterencode floatstr kv.2) items)
        ++ [125]
  end.

(** What [floatstr] gives: a text the whole of which [NUMBER_RE]
    matches, or one of the three constants. *)
Definition float_token (t : str) : Prop :=
  (exists integer frac exp, match_number t = Some (integer, frac, exp, []))
  \/ t = u "NaN" \/ t = u "Infinity" \/ t = u "-Infinity".

(** Where the text of a value ends: at the end of the text or before
    a comma, a closing bracket or a closing brace. *)
Definition delimited (rest : str) : Prop :=
  match rest with
  | [] => True
  | c :: _ => c = 44 \/ c = 93 \/ c = 125
  end.

(** The scanner reads the text of [v] followed by [rest]: with fuel
    for it, it returns a value and leaves [rest]. *)
Definition reads (floatstr : str -> str) (v : value) : Prop :=
  forall (rest : str) (fuel : nat),
    delimited rest ->
    (2 * length (iterencode floatstr v ++ rest) < fuel)%nat ->
    exists v', scan_once fuel (iterencode floatstr v ++ rest) = Returns (v', rest).
End Json.

(** ** The world the handler runs in *)

(** A value of a log field or of the transaction-id slot. *)
Inductive scalar : Type :=
  | SInt (z : Z)
  | SStr (s : str).

Inductive level : Type := INFO | ERROR.

(** What the handler does that can be observed from outside: a log
    record, or a call handed to an upstream's session. *)
Inductive event : Type :=
  | Log (lvl : level) (msg : string) (fields : list (string * scalar))
  | Call (srv : str) (method url : str) (hdrs : Headers) (data : option bytes).

(** The outbound calls recorded in a trace. *)
Definition is_call (e : event) : bool :=
  match e with
  | Call _ _ _ _ _ => true
  | Log _ _ _ => false
  end.

Definition calls (t : list event) : list event := List.filter is_call t.

Record world : Type := mkWorld {
  TX : scalar;
  trace : list event;
  minted : nat
}.

(** The state at start-up: [ContextVar("var", default=42)]. *)
Definition world0 : world := mkWorld (SInt 42) [] 0.

Definition M (A : Type) : Type := world -> outcome A * world.

Definition ret {A : Type} (a : A) : M A := fun w => (Returns a, w).
Definition bind {A B : Type} (m : M A) (k : A -> M B) : M B :=
  fun w =>
    match m w with
    | (Returns a, w') => k a w'
    | (Raises e, w') => (Raises e, w')
    end.
Definition lift {A : Type} (o : outcome A) : M A := fun w => (o, w).

Declare Scope gw_scope.
Delimit Scope gw_scope with gw.
Notation "x <- m ;; k" := (bind m (fun x => k))
  (at level 100, m at next level, right associativity) : gw_scope.
Notation "m ;; k" := (bind m (fun _ => k))
  (at level 100, right associativity) : gw_scope.

Definition TX_get : M scalar := fun w => (Returns (TX w), w).
Definition TX_set (v : scalar) : M unit :=
  fun w => (Returns tt, mkWorld v (trace w) (minted w)).

Definition emit (e : event) : M unit :=
  fun w => (Returns tt, mkWorld (TX w) (trace w ++ [e]) (minted w)).

Definition logger_info (msg : string) (fields : list (string * scalar)) : M unit :=
  emit (Log INFO msg fields).
Definition logger_error (msg : string) (fields : list (string * scalar)) : M unit :=
  emit (Log ERROR msg fields).

(** [url] and [host_port] of an [Upstream]. *)
Definition url (self : Upstream) : str :=
  Options.default_schema ++ u "://" ++ host self ++ u ":" ++ str_of_Z (port self)
    ++ endpoint self.

Definition host_port (self : Upstream) : str :=
  host self ++ u ":" ++ str_of_Z (port self).

(** [min(xs, key=key)]: the first element with the least key; a
    [ValueError] on an empty sequence. *)
Fixpoint min_from {A : Type} (key : A -> Z) (best : A) (xs : list A) : A :=
  match xs with
  | [] => best
  | x :: xs' => if key x <? key best then min_from key x xs' else min_from key best xs'
  end.

Definition py_min {A : Type} (key : A -> Z) (xs : list A) : outcome A :=
  match xs with
  | [] => Raises ValueError
  | x :: xs' => Returns (min_from key x xs')
  end.

Definition marker_A : str := u "Bad gateway #trace=0cf36ac4-b79e-4b74-85f1-fc823822c742".
Definition marker_B : bytes := b "Bad gateway #trace=0cf36ac4-b79e-4b74-85f1-fc823822c743".
Definition marker_C : bytes := b "Bad gateway #trace=0cf36ac4-b79e-4b74-85f1-fc823822c744".

Section Gateway.
(** [json.loads] and [json.dumps], [uuid.uuid4().hex] as the n-th
    identifier drawn, and the route table. *)
Variable json_loads : bytes -> outcome value.
Variable json_dumps : value -> str.
Variable uuid4_hex : nat -> str.
Variable routing_table : gmap (list N) (list Upstream).

Local Open Scope string_scope.
Local Open Scope list_scope.
Local Open Scope gw_scope.

(** [ApiResponse.transform] *)
Definition transform (self : ApiResponse) : outcome value :=
  try_except (json_loads (body self)) is_ValueError
    (fun _ => s ← decode_utf8 (body self);
              Returns (VDict [(u "error", VStr s)])).

(** [str(uuid.uuid4().hex)] *)
Definition uuid4 : M str :=
  fun w => (Returns (uuid4_hex (minted w)),
            mkWorld (TX w) (trace w) (S (minted w))).

(** [await srv.session.request(method, srv.url, headers=headers,
    data=data)] *)
Definition session_request (srv : Upstream) (method : str) (hdrs : Headers)
    (data : option bytes) : M ClientResponse :=
  emit (Call (name srv) method (url srv) hdrs data) ;;
  lift (session srv method (url srv) hdrs data).

(** [try: m except <class>: handler] for a computation. *)
Definition try_M {A : Type} (m : M A) (catches : exn -> bool)
    (handler : M A) : M A :=
  fun w =>
    match m w with
    | (Raises e, w') => if catches e then handler w' else (Raises e, w')
    | r => r
    end.

Definition send_request (srv : Upstream) (method : str) (hdrs : Headers)
    (data : option bytes) : M ApiResponse :=
  let hdrs := <[u "Host" := host_port srv]> hdrs in
  tx <- TX_get ;;
  logger_info "requesting"
    [("url", SStr (url srv)); ("method", SStr method); ("tx", tx)] ;;
  r <- try_M (resp <- session_request srv method hdrs data ;; ret (inl resp))
         is_ClientConnectorError
         (tx <- TX_get ;;
          logger_error "connection error"
            [("url", SStr (url srv)); ("method", SStr method); ("tx", tx)] ;;
          ret (inr (mkApiResponse marker_B 502 ∅ (name srv)))) ;;
  match r with
  | inr synthetic => ret synthetic
  | inl resp =>
      r <- try_M (data <- lift (resp_read resp) ;; ret (inl data))
             is_IOError
             (ret (inr (mkApiResponse marker_C 502 ∅ (name srv)))) ;;
      match r with
      | inr synthetic => ret synthetic
      | inl data =>
          tx <- TX_get ;;
          logger_info "done"
            [("url", SStr (url srv)); ("method", SStr method);
             ("bytes", SInt (Z.of_nat (length data)));
             ("srv_name", SStr (name srv));
             ("code", SInt (resp_status resp)); ("tx", tx)] ;;
          ret (mkApiResponse data (resp_status resp) (resp_headers resp) (name srv))
      end
  end.

(** The reply [send_request] comes to, its log left aside. *)
Definition reply_of (srv : Upstream) (method : str) (hdrs : Headers)
    (data : option bytes) : outcome ApiResponse :=
  match session srv method (url srv) (<[u "Host" := host_port srv]> hdrs) data with
  | Raises e =>
      if is_ClientConnectorError e
      then Returns (mkApiResponse marker_B 502 ∅ (name srv))
      else Raises e
  | Returns resp =>
      match resp_read resp with
      | Raises e =>
          if is_IOError e
          then Returns (mkApiResponse marker_C 502 ∅ (name srv))
          else Raises e
      | Returns data =>
          Returns (mkApiResponse data (resp_status resp) (resp_headers resp) (name srv))
      end
  end.

(** A task started by [asyncio.gather] runs in a copy of the caller's
    context: what it sets in [TX] stays in the copy. *)
Definition in_task {A : Type} (m : M A) : M A :=
  fun w =>
    let '(r, w') := m w in
    (r, mkWorld (TX w) (trace w') (minted w')).

(** Every task runs to its end, whatever becomes of the others. The
    events of the tasks are recorded task after task, where the event
    loop interleaves them. *)
Fixpoint run_tasks {A : Type} (tasks : list (M A)) (w : world)
    : list (outcome A) * world :=
  match tasks with
  | [] => ([], w)
  | t :: rest =>
      let '(r, w1) := in_task t w in
      let '(rs, w2) := run_tasks rest w1 in
      (r :: rs, w2)
  end.

(** The results in the order of the tasks, or the exception of the
    first task, in that order, that raised one. [asyncio.gather]
    raises the exception that comes first in time: the order of the
    tasks stands for it. *)
Fixpoint collect {A : Type} (rs : list (outcome A)) : outcome (list A) :=
  match rs with
  | [] => Returns []
  | r :: rest => a ← r; l ← collect rest; Returns (a :: l)
  end.

(** [await asyncio.gather] over the tasks. *)
Definition gather {A : Type} (tasks : list (M A)) : M (list A) :=
  fun w =>
    let '(rs, w') := run_tasks tasks w in
    (collect rs, w').

(** The fan-out of [gateway]: one [send_request] per upstream, each
    with its own copy of the headers, gathered. *)
Definition dispatch (srvs : list Upstream) (method : str) (hdrs : Headers)
    (data : option bytes) : M (list ApiResponse) :=
  gather (map (fun srv => send_request srv method hdrs data) srvs).

(** The [{r.name: r.transform() for r in results}] comprehension,
    entry after entry from [d]. *)
Fixpoint transform_all (results : list ApiResponse) (d : list (str * value))
    : outcome (list (str * value)) :=
  match results with
  | [] => Returns d
  | r :: rest =>
      v ← transform r;
      transform_all rest (dict_set (rname r) v d)
  end.

(** The end of [gateway], from [if len(results) == 1] on: one reply
    for the replies of the upstreams. *)
Definition reconcile (results : list ApiResponse) : outcome Response :=
  match results with
  | [reply] =>
      Returns (mkResponse (Bytes (body reply)) (status reply) (headers reply))
  | _ =>
      least ← py_min status results;
      let status := status least in
      first ← match results with
              | r0 :: _ => Returns r0
              | [] => Raises (OtherError "IndexError")
              end;
      let headers := delete (u "Content-Length") (headers first) in
      payload ← transform_all results [];
      let data := json_dumps (VDict payload) in
      Returns (mkResponse (Text data) status headers)
  end.

(** What the handler uses of the inbound request. [req_body] is what
    [await request.read()] returns; a read that raises is not
    modelled. *)
Record Request : Type := mkRequest {
  match_info_service : str;
  method : str;
  req_headers : Headers;
  body_exists : bool;
  req_body : bytes
}.

(** [not srvs] for the result of [routing_table.get]. *)
Definition no_routes (srvs : option (list Upstream)) : bool :=
  match srvs with
  | None | Some [] => true
  | Some (_ :: _) => false
  end.

Definition gateway (request : Request) : M Response :=
  let upstream := strip (match_info_service request) in
  let srvs := routing_table !! upstream in
  id <- uuid4 ;;
  TX_set (SStr id) ;;
  tx <- TX_get ;;
  logger_info "request" [("upstream", SStr upstream); ("tx", tx)] ;;
  if no_routes srvs then
    tx <- TX_get ;;
    logger_error "no routes to upstream" [("upstream", SStr upstream); ("tx", tx)] ;;
    ret (mkResponse (Text marker_A) 502 ∅)
  else
    let data := if body_exists request then Some (req_body request) else None in
    results <- dispatch (default [] srvs) (method request) (req_headers request) data ;;
    lift (reconcile results).
End Gateway.

(** ** Reading a trace *)

(** The value of a keyword of a log record. *)
Fixpoint field (key : string) (fields : list (string * scalar)) : option scalar :=
  match fields with
  | [] => None
  | (k, v) :: rest => if String.eqb k key then Some v else field key rest
  end.

(** The transaction id a log record was written with. *)
Definition log_tx (e : event) : option scalar :=
  match e with
  | Log _ _ fields => field "tx" fields
  | Call _ _ _ _ _ => None
  end.

(** Every log record among [evs] was written with [tx]. *)
Definition logs_carry (tx : scalar) (evs : list event) : Prop :=
  Forall (fun e => is_call e = false -> log_tx e = Some tx) evs.

(** Where a call goes and what it carries: the name of the upstream,
    the method, the URL and the body. *)
Definition call_target (e : event) : option (str * str * str * option bytes) :=
  match e with
  | Call name method url _ data => Some (name, method, url, data)
  | Log _ _ _ => None
  end.

(** [headers[key]] of a call. *)
Definition call_header (key : str) (e : event) : option str :=
  match e with
  | Call _ _ _ hdrs _ => hdrs !! key
  | Log _ _ _ => None
  end.

(** The call [send_request] hands to the session of [srv]. *)
Definition call_to (method : str) (hdrs : Headers) (data : option bytes)
    (srv : Upstream) : event :=
  Call (name srv) method (url srv) (<[u "Host" := host_port srv]> hdrs) data.

(** ** The declared routes *)

Section Routes.
(** [default_connection()]: the session opened for an upstream. *)
Variable default_connection : Session.

Definition service_a : Upstream :=
  mkUpstream (u "service1") (u "0.0.0.0") 9091 (u "/api/test") default_connection.
Definition service_b : Upstream :=
  mkUpstream (u "service2") (u "0.0.0.0") 9092 (u "/api/test") default_connection.
Definition service_c : Upstream :=
  mkUpstream (u "service3") (u "0.0.0.0") 9093 (u "/api/test") default_connection.

Definition routing_table : gmap (list N) (list Upstream) :=
  <[u "grouped" := [service_a; service_b; service_c]]>
    (<[u "service3" := [service_c]]>
       (<[u "service2" := [service_b]]>
          (<[u "service1" := [service_a]]> ∅))).
End Routes.

(** ** Sample replies

    Replies of the declared upstreams, used to run the handler on
    concrete inputs. *)

Module Samples.
(** A JSON array from [service1], with the headers of its reply. *)
Definition reply_a : ApiResponse :=
  mkApiResponse (b "[1, 2]") 200
    (<[u "Content-Length" := u "6"]>
       (<[u "Content-Type" := u "application/json"]> ∅))
    (u "service1").

(** What [send_request] makes of a refused connection to [service2]. *)
Definition reply_b : ApiResponse :=
  mkApiResponse marker_B 502 ∅ (u "service2").

(** An empty JSON object from [service3]. *)
Definition reply_c : ApiResponse :=
  mkApiResponse (b "{}") 201
    (<[u "Content-Length" := u "2"]> (<[u "X-Upstream" := u "c"]> ∅))
    (u "service3").

(** A one-byte body, [b'\xff']: neither JSON nor UTF-8 text. *)
Definition reply_bin : ApiResponse :=
  mkApiResponse [xff] 200 ∅ (u "service2").

(** A second reply under the name [service2], with a JSON body. *)
Definition reply_b' : ApiResponse :=
  mkApiResponse (b "[1, 2]") 200 ∅ (u "service2").

(** A session that sends the headers of a 200 and then loses the
    connection while the body is read. *)
Definition session_broken : Session :=
  fun _ _ _ _ => Returns (mkClientResponse 200 ∅ (Raises IOError)).

(** The session of the three declared upstreams when [service1]
    answers with [reply_a], [service2] refuses the connection and
    [service3] answers with [reply_c]. *)
Definition network : Session :=
  fun _ url _ _ =>
    if decide (url = u "http://0.0.0.0:9091/api/test") then
      Returns (mkClientResponse (status reply_a) (headers reply_a)
                 (Returns (body reply_a)))
    else if decide (url = u "http://0.0.0.0:9092/api/test") then
      Raises ClientConnectorError
    else
      Returns (mkClientResponse (status reply_c) (headers reply_c)
                 (Returns (body reply_c))).

(** A fourth upstream, whose connection breaks while the body is
    read. *)
Definition service_d : Upstream :=
  mkUpstream (u "service4") (u "0.0.0.0") 9094 (u "/api/test") session_broken.

(** The n-th identifier drawn. *)
Definition sample_uuid (n : nat) : str :=
  u "9f1c2d3e4b5a69788796a5b4c3d2e1f" ++ str_of_Z (Z.of_nat n).

(** A request for [/api/<service>] without a body. *)
Definition get (service : string) : Request :=
  mkRequest (u service) (u "GET") (<[u "Accept" := u "*/*"]> ∅) false [].

(** The three replies of the route [grouped], and the aggregate the
    handler answers with. *)
Definition grouped : list ApiResponse := [reply_a; reply_b; reply_c].

Definition grouped_payload : list (str * value) :=
  [(u "service1", VList [VInt 1; VInt 2]);
   (u "service2",
    VDict [(u "error",
            VStr (u "Bad gateway #trace=0cf36ac4-b79e-4b74-85f1-fc823822c743"))]);
   (u "service3", VDict [])].

Definition grouped_reply : Response :=
  mkResponse (Text (Json.dumps (VDict grouped_payload))) 200
    (<[u "Content-Type" := u "application/json"]> ∅).

(** A fifth upstream, which answers 200 with the one-byte body
    [b'\xff']. *)
Definition session_binary : Session :=
  fun _ _ _ _ => Returns (mkClientResponse 200 ∅ (Returns [xff])).

Definition service_e : Upstream :=
  mkUpstream (u "service5") (u "0.0.0.0") 9095 (u "/api/test") session_binary.

(** A sixth one, on which the server closes the connection before it
    answers: aiohttp's [ServerDisconnectedError], which is neither a
    [ClientConnectorError] nor an [IOError]. *)
Definition session_dropped : Session :=
  fun _ _ _ _ => Raises (OtherError "ServerDisconnectedError").

Definition service_f : Upstream :=
  mkUpstream (u "service6") (u "0.0.0.0") 9096 (u "/api/test") session_dropped.

(** The declared routes and two more, over these upstreams. *)
Definition wider_table : gmap (list N) (list Upstream) :=
  <[u "binary" := [service_a network; service_e]]>
    (<[u "dropped" := [service_a network; service_f]]>
       (<[u "broken" := [service_d]]> (routing_table network))).

(** The session of the three declared upstreams when [service1] and
    [service3] answer and [service2] does not accept the connection
    within the connection timeout: [session.request] raises aiohttp's
    [ServerTimeoutError], which is not a [ClientConnectorError]. *)
Definition network_slow : Session :=
  fun _ url _ _ =>
    if decide (url = u "http://0.0.0.0:9091/api/test") then
      Returns (mkClientResponse (status reply_a) (headers reply_a)
                 (Returns (body reply_a)))
    else if decide (url = u "http://0.0.0.0:9092/api/test") then
      Raises (OtherError "ServerTimeoutError")
    else
      Returns (mkClientResponse (status reply_c) (headers reply_c)
                 (Returns (body reply_c))).

(** The same when [service2] sends the headers of a 200 and closes
    the connection before the body is complete: [resp.read()] raises
    aiohttp's [ClientPayloadError], which is not an [IOError]. *)
Definition network_truncated : Session :=
  fun _ url _ _ =>
    if decide (url = u "http://0.0.0.0:9091/api/test") then
      Returns (mkClientResponse (status reply_a) (headers reply_a)
                 (Returns (body reply_a)))
    else if decide (url = u "http://0.0.0.0:9092/api/test") then
      Returns (mkClientResponse 200 ∅ (Raises (OtherError "ClientPayloadError")))
    else
      Returns (mkClientResponse (status reply_c) (headers reply_c)
                 (Returns (body reply_c))).

(** The session of the three declared upstreams when [service1]
    answers with [reply_a], [service2] with the one-byte body
    [b'\xff'] and [service3] with [reply_c]. *)
Definition network_binary : Session :=
  fun _ url _ _ =>
    if decide (url = u "http://0.0.0.0:9091/api/test") then
      Returns (mkClientResponse (status reply_a) (headers reply_a)
                 (Returns (body reply_a)))
    else if decide (url = u "http://0.0.0.0:9092/api/test") then
      Returns (mkClientResponse 200 ∅ (Returns [xff]))
    else
      Returns (mkClientResponse (status reply_c) (headers reply_c)
                 (Returns (body reply_c))).

(** The session of the declared upstreams when none of them accepts
    a connection. *)
Definition network_down : Session :=
  fun _ _ _ _ => Raises ClientConnectorError.

(** A stand-in for [float.__repr__]: the literal itself when
    [NUMBER_RE] matches the whole of it, [NaN] otherwise. *)
Definition literal_repr (literal : str) : str :=
  match Json.match_number literal with
  | Some (_, _, _, []) => literal
  | _ => u "NaN"
  end.

(** A request for [/api/<service>] with a body. *)
Definition post (service : string) (payload : string) : Request :=
  mkRequest (u service) (u "POST") (<[u "Accept" := u "*/*"]> ∅) true (b payload).
End Samples.

(** * Properties *)

(** ** Ordered dictionaries *)

Section DictFacts.
Context {V : Type}.
Implicit Types (d : list (str * V)) (k : str) (v : V).

Lemma dict_set_elem_of k k' v d :
  k' ∈ dict_keys (dict_set k v d) ↔ k' = k ∨ k' ∈ dict_keys d.
Proof.
  unfold dict_keys. induction d as [|[k0 v0] d IH]; csimpl.
  - set_solver.
  - case_decide; subst; csimpl; set_solver.
Qed.

Lemma dict_set_NoDup k v d :
  NoDup (dict_keys d) → NoDup (dict_keys (dict_set k v d)).
Proof.
  unfold dict_keys. induction d as [|[k0 v0] d IH]; csimpl.
  - intros _. apply NoDup_singleton.
  - intros [Hk0 Hd]%NoDup_cons. case_decide; subst; csimpl.
    + by apply NoDup_cons.
    + apply NoDup_cons. split; [|by apply IH].
      intros Hin. apply (dict_set_elem_of k k0 v d) in Hin as [?|?]; done.
Qed.

Lemma dict_get_set_eq k v d : dict_get k (dict_set k v d) = Some v.
Proof.
  induction d as [|[k0 v0] d IH]; simpl; repeat (case_decide; simpl); done.
Qed.

Lemma dict_get_set_ne k k' v d :
  k ≠ k' → dict_get k' (dict_set k v d) = dict_get k' d.
Proof.
  intros Hne. induction d as [|[k0 v0] d IH]; simpl;
    repeat (case_decide; simpl); subst; done.
Qed.
End DictFacts.

(** ** The least element *)

Section MinFacts.
Context {A : Type} (key : A → Z).

Lemma min_from_elem_of best xs : min_from key best xs ∈ best :: xs.
Proof.
  revert best. induction xs as [|x xs IH]; intros best; simpl.
  - apply elem_of_cons; by left.
  - destruct (key x <? key best).
    + apply elem_of_cons; right. apply IH.
    + specialize (IH best). apply elem_of_cons in IH as [->|?].
      * apply elem_of_cons; by left.
      * apply elem_of_cons; right. apply elem_of_cons; by right.
Qed.

Lemma min_from_le_best best xs : key (min_from key best xs) <= key best.
Proof.
  revert best. induction xs as [|x xs IH]; intros best; simpl; [lia|].
  destruct (key x <? key best) eqn:Hlt.
  - apply Z.ltb_lt in Hlt. specialize (IH x). lia.
  - apply IH.
Qed.

Lemma min_from_le best xs x :
  x ∈ best :: xs → key (min_from key best xs) <= key x.
Proof.
  revert best. induction xs as [|y xs IH]; intros best Hx; simpl.
  - apply elem_of_cons in Hx as [->|Hx]; [lia | by apply elem_of_nil in Hx].
  - apply elem_of_cons in Hx as [->|Hx].
    + destruct (key y <? key best) eqn:Hlt.
      * apply Z.ltb_lt in Hlt. pose proof (min_from_le_best y xs). lia.
      * apply min_from_le_best.
    + destruct (key y <? key best) eqn:Hlt.
      * by apply IH.
      * apply Z.ltb_ge in Hlt. apply elem_of_cons in Hx as [->|Hx].
        -- pose proof (min_from_le_best best xs). lia.
        -- apply IH. apply elem_of_cons; by right.
Qed.
End MinFacts.

(** ** The comprehension over the replies *)

Section TransformFacts.
Variable json_loads : bytes → outcome value.

Local Abbreviation transform := (transform json_loads).
Local Abbreviation transform_all := (transform_all json_loads).

(** The keys of the comprehension: those it started from and the
    names of the replies, each once. *)
Lemma transform_all_keys results d payload :
  transform_all results d = Returns payload →
  (NoDup (dict_keys d) → NoDup (dict_keys payload))
  ∧ ∀ k, k ∈ dict_keys payload ↔ k ∈ dict_keys d ∨ k ∈ rname <$> results.
Proof.
  revert d. induction results as [|r rest IH]; intros d; simpl.
  - intros [= <-]. split; [done|]. intros k. rewrite elem_of_nil. tauto.
  - destruct (transform r) as [v|e]; simpl; [|done].
    intros [Hnd Hk]%IH. split.
    + intros Hd. by apply Hnd, dict_set_NoDup.
    + intros k. rewrite Hk, dict_set_elem_of, ?fmap_cons, elem_of_cons. tauto.
Qed.

(** An entry the rest of the comprehension does not name again stays
    as it is. *)
Lemma transform_all_frame results d payload k :
  transform_all results d = Returns payload →
  k ∉ rname <$> results →
  dict_get k payload = dict_get k d.
Proof.
  revert d. induction results as [|r rest IH]; intros d; simpl.
  - by intros [= <-].
  - destruct (transform r) as [v|e]; simpl; [|done].
    intros Hall Hk. rewrite ?fmap_cons, not_elem_of_cons in Hk.
    destruct Hk as [Hne Hk].
    rewrite (IH _ Hall Hk). by apply dict_get_set_ne.
Qed.

(** With pairwise distinct names, every reply is found under its name
    with what [transform] made of its body. *)
Lemma transform_all_get results d payload r :
  transform_all results d = Returns payload →
  NoDup (rname <$> results) →
  r ∈ results →
  ∃ v, transform r = Returns v ∧ dict_get (rname r) payload = Some v.
Proof.
  revert d. induction results as [|r' rest IH]; intros d; simpl.
  - intros _ _ Hr. by apply elem_of_nil in Hr.
  - destruct (transform r') as [v|e] eqn:Ht; simpl; [|done].
    rewrite ?fmap_cons. intros Hall [Hr' Hnd]%NoDup_cons [->|Hr]%elem_of_cons.
    + exists v. split; [done|].
      rewrite (transform_all_frame _ _ _ _ Hall Hr'). apply dict_get_set_eq.
    + by apply (IH _ Hall Hnd Hr).
Qed.

(** The comprehension returns when [transform] returns on every
    reply. *)
Lemma transform_all_returns results d :
  Forall (λ r, ∃ v, transform r = Returns v) results →
  ∃ payload, transform_all results d = Returns payload.
Proof.
  intros Hall. revert d. induction Hall as [|r rest [v Hv] _ IH]; intros d; simpl.
  - by exists d.
  - rewrite Hv. simpl. apply IH.
Qed.

(** And the first reply on which [transform] raises ends it. *)
Lemma transform_all_raises results d e :
  transform_all results d = Raises e →
  ∃ r, r ∈ results ∧ transform r = Raises e.
Proof.
  revert d. induction results as [|r rest IH]; intros d; simpl; [done|].
  destruct (transform r) as [v|e'] eqn:Ht; simpl.
  - intros (r' & ? & ?)%IH. exists r'. split; [|done]. by apply elem_of_cons; right.
  - intros [= ->]. exists r. split; [|done]. by apply elem_of_cons; left.
Qed.
End TransformFacts.

(** ** Reconciliation *)

Section ReconcileFacts.
Variable json_loads : bytes → outcome value.
Variable json_dumps : value → str.

Local Abbreviation transform_all := (transform_all json_loads).
Local Abbreviation reconcile := (reconcile json_loads json_dumps).

(** With two replies or more, [reconcile] is the aggregation: the
    status of the least reply, the headers of the first one without
    [Content-Length], the serialised comprehension. *)
Lemma reconcile_many r0 r1 rest :
  reconcile (r0 :: r1 :: rest)
  = payload ← transform_all (r0 :: r1 :: rest) [];
    Returns (mkResponse (Text (json_dumps (VDict payload)))
               (status (min_from status r0 (r1 :: rest)))
               (delete (u "Content-Length") (headers r0))).
Proof. reflexivity. Qed.

Lemma reconcile_many_inv results resp :
  (2 ≤ length results)%nat →
  reconcile results = Returns resp →
  ∃ r0 rest payload,
    results = r0 :: rest
    ∧ transform_all results [] = Returns payload
    ∧ resp = mkResponse (Text (json_dumps (VDict payload)))
               (status (min_from status r0 rest))
               (delete (u "Content-Length") (headers r0)).
Proof.
  destruct results as [|r0 [|r1 rest]]; cbn [length]; try lia. intros _.
  rewrite reconcile_many.
  destruct (transform_all (r0 :: r1 :: rest) []) as [payload|e] eqn:Hall;
    simpl; [|done].
  intros [= <-]. by exists r0, (r1 :: rest), payload.
Qed.
End ReconcileFacts.

(** ** The claims on reconciliation *)

Section ReconcileClaims.
Variable json_loads : bytes → outcome value.
Variable json_dumps : value → str.

Local Abbreviation transform_all := (transform_all json_loads).
Local Abbreviation reconcile := (reconcile json_loads json_dumps).

(** C1. A list of exactly one reply is passed through unchanged: the
    aggregate has the status, the headers and, byte for byte, the body
    of that reply. *)
Theorem reconcile_single (reply : ApiResponse) :
  ∃ resp,
    reconcile [reply] = Returns resp
    ∧ r_status resp = status reply
    ∧ r_headers resp = headers reply
    ∧ r_body resp = Bytes (body reply).
Proof. eexists. by split_and!. Qed.

(** C2. With two replies or more, the status of the aggregate is the
    least status code among the replies: it is the status of one of
    them and no reply has a smaller one. *)
Theorem reconcile_status_min (results : list ApiResponse) (resp : Response) :
  (2 ≤ length results)%nat →
  reconcile results = Returns resp →
  (∃ r, r ∈ results ∧ r_status resp = status r)
  ∧ (∀ r, r ∈ results → r_status resp <= status r).
Proof.
  intros Hlen Hres.
  destruct (reconcile_many_inv _ _ _ _ Hlen Hres) as (r0 & rest & payload & -> & _ & ->).
  simpl. split.
  - exists (min_from status r0 rest). split; [apply min_from_elem_of | done].
  - intros r Hr. by apply min_from_le.
Qed.

(** With two replies or more, the body of the aggregate is what
    [json.dumps] makes of a dict that has exactly one key per reply,
    the name of that reply, and no other key. *)
Lemma reconcile_payload_keys (results : list ApiResponse) (resp : Response) :
  (2 ≤ length results)%nat →
  reconcile results = Returns resp →
  ∃ payload,
    r_body resp = Text (json_dumps (VDict payload))
    ∧ NoDup (dict_keys payload)
    ∧ (∀ r, r ∈ results → rname r ∈ dict_keys payload)
    ∧ (∀ k, k ∈ dict_keys payload → ∃ r, r ∈ results ∧ rname r = k).
Proof.
  intros Hlen Hres.
  destruct (reconcile_many_inv _ _ _ _ Hlen Hres) as (r0 & rest & payload & -> & Hall & ->).
  destruct (transform_all_keys _ _ _ _ Hall) as [Hnd Hk].
  exists payload. split_and!.
  - done.
  - apply Hnd, NoDup_nil_2.
  - intros r Hr. apply Hk. right. by apply list_elem_of_fmap_2.
  - intros k [Hk0|Hkr]%Hk; [by apply elem_of_nil in Hk0|].
    apply list_elem_of_fmap in Hkr as (r & -> & Hr). by exists r.
Qed.

(** What [transform] does absorb. With two replies or more under
    pairwise distinct names, every body being valid JSON or, when
    [json.loads] fails on it with a [ValueError], valid UTF-8 text: the
    aggregation returns,
    every reply whose body is valid JSON is found under its name with
    its parsed value, and every other reply under its name with
    [{"error": <body decoded as text>}]. *)
Theorem reconcile_entries (results : list ApiResponse) :
  (2 ≤ length results)%nat →
  NoDup (rname <$> results) →
  Forall (λ r, ∀ e, json_loads (body r) = Raises e →
                    is_ValueError e = true ∧ ∃ s, decode_utf8 (body r) = Returns s)
         results →
  ∃ resp payload,
    reconcile results = Returns resp
    ∧ r_body resp = Text (json_dumps (VDict payload))
    ∧ ∀ r, r ∈ results →
        match json_loads (body r) with
        | Returns v => dict_get (rname r) payload = Some v
        | Raises _ =>
            ∃ s, decode_utf8 (body r) = Returns s
                 ∧ dict_get (rname r) payload
                   = Some (VDict [(u "error", VStr s)])
        end.
Proof.
  intros Hlen Hnd Hok.
  assert (Forall (λ r, ∃ v, transform json_loads r = Returns v) results) as Hret.
  { eapply Forall_impl; [exact Hok|]. intros r Hr. unfold transform.
    destruct (json_loads (body r)) as [v|e] eqn:Hl; simpl; [by exists v|].
    destruct (Hr e Hl) as (-> & s & ->). simpl. by eexists. }
  destruct (transform_all_returns json_loads results [] Hret) as [payload Hall].
  destruct results as [|r0 [|r1 rest]]; cbn [length] in Hlen; try lia.
  eexists _, payload. rewrite reconcile_many, Hall. split_and!; [done..|].
  intros r Hr.
  destruct (transform_all_get _ _ _ _ r Hall Hnd Hr) as (v & Hv & Hget).
  rewrite Forall_forall in Hok. specialize (Hok r Hr).
  unfold transform in Hv.
  destruct (json_loads (body r)) as [v'|e] eqn:Hl; simpl in Hv.
  - by injection Hv as ->.
  - destruct (Hok e eq_refl) as (He & s & Hs). rewrite He, Hs in Hv. simpl in Hv.
    injection Hv as <-. by exists s.
Qed.

(** C5. With two replies or more, the headers of the aggregate are
    those of the first reply without [Content-Length]: that entry is
    absent, every other header of the first reply is kept as it is,
    and the aggregate has no header the first reply does not have. *)
Theorem reconcile_headers (results : list ApiResponse) (resp : Response) :
  (2 ≤ length results)%nat →
  reconcile results = Returns resp →
  ∃ r0 rest,
    results = r0 :: rest
    ∧ r_headers resp = delete (u "Content-Length") (headers r0)
    ∧ r_headers resp !! u "Content-Length" = None
    ∧ (∀ k, k ≠ u "Content-Length" → r_headers resp !! k = headers r0 !! k)
    ∧ (∀ k v, r_headers resp !! k = Some v → headers r0 !! k = Some v).
Proof.
  intros Hlen Hres.
  destruct (reconcile_many_inv _ _ _ _ Hlen Hres) as (r0 & rest & payload & -> & _ & ->).
  exists r0, rest. simpl. split_and!.
  - done.
  - done.
  - apply lookup_delete_eq.
  - intros k Hk. by apply lookup_delete_ne.
  - intros k v Hkv. by apply lookup_delete_Some in Hkv as [_ ?].
Qed.
End ReconcileClaims.

(** ** The reconciliation on the sample replies *)

Section ReconcileRuns.
Import Samples.

Lemma reconcile_grouped :
  reconcile Json.loads Json.dumps grouped = Returns grouped_reply.
Proof. vm_compute. reflexivity. Qed.

Lemma grouped_length : (2 ≤ length grouped)%nat.
Proof. simpl. lia. Qed.

Lemma reconcile_status_min_witness :
  (2 ≤ length grouped)%nat
  ∧ reconcile Json.loads Json.dumps grouped = Returns grouped_reply
  ∧ (∃ r, r ∈ grouped ∧ r_status grouped_reply = status r)
  ∧ (∀ r, r ∈ grouped → r_status grouped_reply <= status r).
Proof.
  split; [simpl; lia|]. split; [vm_compute; reflexivity|].
  apply (reconcile_status_min Json.loads Json.dumps grouped grouped_reply);
    [simpl; lia | vm_compute; reflexivity].
Defined.


Lemma reconcile_headers_witness :
  (2 ≤ length grouped)%nat
  ∧ reconcile Json.loads Json.dumps grouped = Returns grouped_reply
  ∧ ∃ r0 rest,
      grouped = r0 :: rest
      ∧ r_headers grouped_reply = delete (u "Content-Length") (headers r0)
      ∧ r_headers grouped_reply !! u "Content-Length" = None
      ∧ (∀ k, k ≠ u "Content-Length" →
              r_headers grouped_reply !! k = headers r0 !! k)
      ∧ (∀ k v, r_headers grouped_reply !! k = Some v → headers r0 !! k = Some v).
Proof.
  split; [simpl; lia|]. split; [vm_compute; reflexivity|].
  apply (reconcile_headers Json.loads Json.dumps grouped grouped_reply);
    [simpl; lia | vm_compute; reflexivity].
Defined.

Lemma reconcile_entries_witness :
  (2 ≤ length grouped)%nat
  ∧ NoDup (rname <$> grouped)
  ∧ ∃ resp payload,
      reconcile Json.loads Json.dumps grouped = Returns resp
      ∧ r_body resp = Text (Json.dumps (VDict payload))
      ∧ ∀ r, r ∈ grouped →
          match Json.loads (body r) with
          | Returns v => dict_get (rname r) payload = Some v
          | Raises _ =>
              ∃ s, decode_utf8 (body r) = Returns s
                   ∧ dict_get (rname r) payload
                     = Some (VDict [(u "error", VStr s)])
          end.
Proof.
  assert (NoDup (rname <$> grouped)) as Hnd
    by (apply (bool_decide_unpack _); vm_compute; exact I).
  split; [simpl; lia|]. split; [exact Hnd|].
  apply (reconcile_entries Json.loads Json.dumps grouped); [simpl; lia | exact Hnd |].
  repeat (apply Forall_cons_2 || apply Forall_nil_2);
    intros e; vm_compute; intros [= <-];
    (split; [reflexivity | eexists; reflexivity]).
Defined.

(** Two replies under one name, which no declared route gives: the
    body of [reply_b] is not JSON and decodes as text, and yet the
    aggregate of [reply_b; reply_b'] holds, under their common name,
    the parsed body of [reply_b'] and not the error object of
    [reply_b]. *)
Lemma reconcile_entries_counterexample :
  let results := [reply_b; reply_b'] in
  let payload := [(u "service2", VList [VInt 1; VInt 2])] in
  let text := u "Bad gateway #trace=0cf36ac4-b79e-4b74-85f1-fc823822c743" in
  (2 ≤ length results)%nat
  ∧ Json.loads (body reply_b) = Raises JSONDecodeError
  ∧ decode_utf8 (body reply_b) = Returns text
  ∧ transform_all Json.loads results [] = Returns payload
  ∧ reconcile Json.loads Json.dumps results
    = Returns (mkResponse (Text (Json.dumps (VDict payload))) 200 ∅)
  ∧ dict_get (rname reply_b) payload ≠ Some (VDict [(u "error", VStr text)]).
Proof.
  split_and!; [simpl; lia | vm_compute; reflexivity.. |].
  vm_compute. discriminate.
Qed.

(** C6 fails on a body that is neither JSON nor UTF-8 text: on
    [b'\xff'] from one upstream next to a valid reply of another,
    [json.loads] raises, the handler of [transform] raises in turn on
    [decode], and the reconciliation raises [UnicodeDecodeError]
    instead of producing an aggregate. *)
Theorem reconcile_raises_on_binary_body :
  Json.loads (body reply_bin) = Raises UnicodeDecodeError
  ∧ decode_utf8 (body reply_bin) = Raises UnicodeDecodeError
  ∧ transform Json.loads reply_bin = Raises UnicodeDecodeError
  ∧ reconcile Json.loads Json.dumps [reply_a; reply_bin]
    = Raises UnicodeDecodeError.
Proof. split_and!; vm_compute; reflexivity. Qed.

(** C4 fails on the same slip of [transform] as C6. On the declared
    route [grouped], let [service1] and [service3] answer with valid
    JSON and [service2] with the body [b'\xff']: [json.loads] fails on
    that body with a [ValueError], and yet its name is not mapped to an
    error object, and the two valid bodies do not appear either, for
    the handler of [transform] raises on [decode] and the aggregation is
    lost. Had the body been text, as that of [reply_b], the three
    entries would be there. *)
Theorem reconcile_loses_entries_on_binary_body :
  Json.loads (body reply_a) = Returns (VList [VInt 1; VInt 2])
  ∧ Json.loads (body reply_c) = Returns (VDict [])
  ∧ (∃ e, Json.loads (body reply_bin) = Raises e ∧ is_ValueError e = true)
  ∧ rname <$> [reply_a; reply_bin; reply_c]
    = [u "service1"; u "service2"; u "service3"]
  ∧ transform_all Json.loads [reply_a; reply_bin; reply_c] []
    = Raises UnicodeDecodeError
  ∧ reconcile Json.loads Json.dumps [reply_a; reply_bin; reply_c]
    = Raises UnicodeDecodeError
  ∧ (gateway Json.loads Json.dumps sample_uuid (routing_table network_binary)
       (get "grouped") world0).1
    = Raises UnicodeDecodeError
  ∧ transform_all Json.loads [reply_a; reply_b; reply_c] []
    = Returns grouped_payload.
Proof.
  split_and!; try (vm_compute; reflexivity).
  exists UnicodeDecodeError. split; vm_compute; reflexivity.
Qed.
End ReconcileRuns.

(** ** The outbound calls *)

Section DispatchFacts.
Implicit Types (srv : Upstream) (srvs : list Upstream) (method : str)
  (hdrs : Headers) (data : option bytes) (w : world).

(** What [send_request] returns or raises does not depend on the world
    it runs in. *)
Lemma send_request_reply srv method hdrs data w :
  (send_request srv method hdrs data w).1 = reply_of srv method hdrs data.
Proof.
  unfold send_request, reply_of, bind, try_M, session_request, lift, ret,
    logger_info, logger_error, emit, TX_get. simpl.
  destruct (session srv method (url srv) _ data) as [resp|e]; simpl.
  - destruct (resp_read resp) as [payload|e]; simpl; [done|].
    by destruct (is_IOError e).
  - by destruct (is_ClientConnectorError e).
Qed.

(** Whatever it comes to, [send_request] has handed exactly one call to
    the session of its upstream, with [Host] set to the upstream's. *)
Lemma send_request_calls srv method hdrs data w :
  calls (trace (send_request srv method hdrs data w).2)
  = calls (trace w)
    ++ [Call (name srv) method (url srv) (<[u "Host" := host_port srv]> hdrs) data].
Proof.
  unfold send_request, bind, try_M, session_request, lift, ret,
    logger_info, logger_error, emit, TX_get, calls. simpl.
  destruct (session srv method (url srv) _ data) as [resp|e]; simpl.
  - destruct (resp_read resp) as [payload|e]; simpl.
    + by rewrite !List.filter_app, !app_nil_r.
    + destruct (is_IOError e); simpl; by rewrite !List.filter_app, ?app_nil_r.
  - destruct (is_ClientConnectorError e); simpl;
      by rewrite !List.filter_app, ?app_nil_r.
Qed.

Lemma run_tasks_replies srvs method hdrs data w :
  (run_tasks (map (λ srv, send_request srv method hdrs data) srvs) w).1
  = (λ srv, reply_of srv method hdrs data) <$> srvs.
Proof.
  revert w. induction srvs as [|srv srvs IH]; intros w; simpl; [done|].
  unfold in_task.
  pose proof (send_request_reply srv method hdrs data w) as Hr.
  destruct (send_request srv method hdrs data w) as [r w1]. simpl in Hr. subst r.
  specialize (IH (mkWorld (TX w) (trace w1) (minted w1))).
  destruct (run_tasks _ _) as [rs w2]. simpl in *. by rewrite IH.
Qed.

Lemma dispatch_replies srvs method hdrs data w :
  (dispatch srvs method hdrs data w).1
  = collect ((λ srv, reply_of srv method hdrs data) <$> srvs).
Proof.
  unfold dispatch, gather.
  pose proof (run_tasks_replies srvs method hdrs data w) as Hr.
  destruct (run_tasks _ _) as [rs w']. simpl in *. by rewrite Hr.
Qed.

Lemma collect_Forall2 {A : Type} (rs : list (outcome A)) (l : list A) :
  collect rs = Returns l ↔ Forall2 (λ r a, r = Returns a) rs l.
Proof.
  revert l. induction rs as [|r rs IH]; intros l; simpl.
  - split; [intros [= <-]; constructor | by intros ->%Forall2_nil_inv_l].
  - split.
    + destruct r as [a|e]; simpl; [|done].
      destruct (collect rs) as [l'|e]; simpl; [|done].
      intros [= <-]. constructor; [done|]. by apply IH.
    + intros (a & l' & -> & Hl & ->)%Forall2_cons_inv_l. simpl.
      apply IH in Hl. by rewrite Hl.
Qed.

(** Each of the three ways out of [send_request] attaches the name of
    the upstream. *)
Lemma reply_of_name srv method hdrs data r :
  reply_of srv method hdrs data = Returns r → rname r = name srv.
Proof.
  unfold reply_of.
  destruct (session srv method (url srv) _ data) as [resp|e].
  - destruct (resp_read resp) as [payload|e]; [by intros [= <-]|].
    destruct (is_IOError e); [by intros [= <-] | done].
  - destruct (is_ClientConnectorError e); [by intros [= <-] | done].
Qed.
End DispatchFacts.

(** ** The claims on the outbound calls and on routing *)

Section DispatchClaims.
Implicit Types (srv : Upstream) (srvs : list Upstream) (method : str)
  (hdrs : Headers) (data : option bytes) (w : world).

(** The failures [send_request] absorbs. In a single outbound call, a
    connection that cannot be established ([ClientConnectorError])
    yields the synthetic reply with
    status 502, no headers, the name of the upstream and the body marked
    B; a failure while the body is read ([IOError]), the headers being
    there, yields the same with the body marked C, and the two bodies
    differ. Either way [send_request] returns instead of raising, so
    that a fan-out in which every call succeeds or fails in one of these
    two ways returns one reply per upstream. *)
Theorem send_request_absorbs srv method hdrs data w :
  let sent := <[u "Host" := host_port srv]> hdrs in
  (∀ e, session srv method (url srv) sent data = Raises e →
        is_ClientConnectorError e = true →
        (send_request srv method hdrs data w).1
        = Returns (mkApiResponse marker_B 502 ∅ (name srv)))
  ∧ (∀ resp e, session srv method (url srv) sent data = Returns resp →
               resp_read resp = Raises e →
               is_IOError e = true →
               (send_request srv method hdrs data w).1
               = Returns (mkApiResponse marker_C 502 ∅ (name srv)))
  ∧ marker_B ≠ marker_C
  ∧ (∀ srvs,
       (∀ srv', srv' ∈ srvs →
          match session srv' method (url srv')
                  (<[u "Host" := host_port srv']> hdrs) data with
          | Raises e => is_ClientConnectorError e = true
          | Returns resp =>
              match resp_read resp with
              | Raises e => is_IOError e = true
              | Returns _ => True
              end
          end) →
       ∃ results,
         (dispatch srvs method hdrs data w).1 = Returns results
         ∧ length results = length srvs).
Proof.
  intros sent. split_and!.
  - intros e He Hc. rewrite send_request_reply. unfold reply_of.
    fold sent. by rewrite He, Hc.
  - intros resp e Hresp He Hio. rewrite send_request_reply. unfold reply_of.
    fold sent. by rewrite Hresp, He, Hio.
  - vm_compute. discriminate.
  - intros srvs Hall. rewrite dispatch_replies.
    assert (∃ results,
              Forall2 (λ r a, r = Returns a)
                ((λ srv', reply_of srv' method hdrs data) <$> srvs) results)
      as [results Hres].
    { clear sent. induction srvs as [|srv' srvs IH]; [by exists []|].
      destruct IH as [results Hres].
      { intros srv'' Hin. apply Hall. by apply elem_of_cons; right. }
      specialize (Hall srv' (list_elem_of_here _ _)).
      assert (∃ r, reply_of srv' method hdrs data = Returns r) as [r Hr].
      { unfold reply_of.
        destruct (session srv' method (url srv') _ data) as [resp|e].
        - destruct (resp_read resp) as [payload|e]; [by eexists|].
          rewrite Hall. by eexists.
        - rewrite Hall. by eexists. }
      exists (r :: results). rewrite fmap_cons. by constructor. }
    exists results. split; [by apply collect_Forall2|].
    apply Forall2_length in Hres. by rewrite length_fmap in Hres.
Qed.

(** C9. The fan-out keeps length and order: when it returns, there is
    exactly one reply per upstream, in the order of the upstreams, the
    i-th reply being what the call to the i-th upstream came to and
    carrying its name; and it returns as soon as every call comes to a
    reply, real or synthetic. *)
Theorem dispatch_one_reply_per_target srvs method hdrs data w :
  (∀ results,
     (dispatch srvs method hdrs data w).1 = Returns results →
     length results = length srvs
     ∧ rname <$> results = name <$> srvs
     ∧ Forall2 (λ srv r, reply_of srv method hdrs data = Returns r
                         ∧ rname r = name srv) srvs results)
  ∧ ((∀ srv, srv ∈ srvs → ∃ r, reply_of srv method hdrs data = Returns r) →
     ∃ results, (dispatch srvs method hdrs data w).1 = Returns results).
Proof.
  rewrite dispatch_replies. split.
  - intros results Hres%collect_Forall2.
    assert (Forall2 (λ srv r, reply_of srv method hdrs data = Returns r
                              ∧ rname r = name srv) srvs results) as HF.
    { apply Forall2_fmap_l in Hres. eapply Forall2_impl; [exact Hres|].
      simpl. intros srv r Hr. split; [done|]. by eapply reply_of_name. }
    split_and!; [| |done].
    + symmetry. by eapply Forall2_length.
    + clear Hres. induction HF as [|srv r srvs results [_ Hn] _ IH]; [done|].
      rewrite !fmap_cons. by f_equal.
  - intros Hall.
    assert (∃ results,
              Forall2 (λ r a, r = Returns a)
                ((λ srv, reply_of srv method hdrs data) <$> srvs) results)
      as [results Hres].
    { induction srvs as [|srv srvs IH]; [by exists []|].
      destruct IH as [results Hres].
      { intros srv' Hin. apply Hall. by apply elem_of_cons; right. }
      destruct (Hall srv (list_elem_of_here _ _)) as [r Hr].
      exists (r :: results). rewrite fmap_cons. by constructor. }
    exists results. by apply collect_Forall2.
Qed.
End DispatchClaims.

Section RoutingClaims.
Variable json_loads : bytes → outcome value.
Variable json_dumps : value → str.
Variable uuid4_hex : nat → str.
Variable routing_table : gmap (list N) (list Upstream).

Local Abbreviation handle := (gateway json_loads json_dumps uuid4_hex routing_table).

(** C7. When the trimmed route key is absent from the route table or
    maps to an empty list, the handler answers 502 with the fixed body
    marked A, which differs from both bodies of the dispatcher, and
    hands no call to any upstream: all it adds to the trace is its two
    log records, which carry the identifier minted for the request. *)
Theorem gateway_no_route (request : Request) (w : world) :
  let key := strip (match_info_service request) in
  routing_table !! key = None ∨ routing_table !! key = Some [] →
  ∃ w',
    handle request w = (Returns (mkResponse (Text marker_A) 502 ∅), w')
    ∧ trace w'
      = trace w
        ++ [Log INFO "request"
              [("upstream"%string, SStr key);
               ("tx"%string, SStr (uuid4_hex (minted w)))];
            Log ERROR "no routes to upstream"
              [("upstream"%string, SStr key);
               ("tx"%string, SStr (uuid4_hex (minted w)))]]
    ∧ calls (trace w') = calls (trace w)
    ∧ marker_A ≠ Byte.to_N <$> marker_B
    ∧ marker_A ≠ Byte.to_N <$> marker_C.
Proof.
  intros key Hkey.
  assert (no_routes (routing_table !! key) = true) as Hno
    by (destruct Hkey as [-> | ->]; done).
  subst key.
  unfold gateway, bind, uuid4, TX_set, TX_get, logger_info, logger_error, emit, ret.
  cbv beta iota zeta. rewrite Hno. cbv beta iota zeta.
  eexists. split; [reflexivity|]. simpl. split_and!.
  - by rewrite <- app_assoc.
  - unfold calls. rewrite !List.filter_app. simpl. by rewrite !app_nil_r.
  - vm_compute. discriminate.
  - vm_compute. discriminate.
Qed.
End RoutingClaims.

(** ** The handler on the sample network *)

Section GatewayRuns.
Import Samples.

Local Abbreviation table := (routing_table network).
Local Abbreviation handle := (gateway Json.loads Json.dumps sample_uuid table).

(** The route [grouped] with one upstream refusing the connection and
    two answering: the three replies come back in order, and the
    aggregate has status 200 with the failed upstream under its own
    name. *)
Lemma dispatch_grouped :
  (dispatch [service_a network; service_b network; service_c network]
     (u "GET") (<[u "Accept" := u "*/*"]> ∅) None world0).1
  = Returns grouped.
Proof. vm_compute. reflexivity. Qed.

Lemma gateway_grouped :
  (handle (get " grouped ") world0).1 = Returns grouped_reply.
Proof. vm_compute. reflexivity. Qed.

Lemma gateway_grouped_calls :
  length (calls (trace (handle (get "grouped") world0).2)) = 3%nat.
Proof. vm_compute. reflexivity. Qed.

Lemma gateway_no_route_witness :
  (table !! strip (match_info_service (get " service9 ")) = None
   ∨ table !! strip (match_info_service (get " service9 ")) = Some [])
  ∧ ∃ w',
      handle (get " service9 ") world0
      = (Returns (mkResponse (Text marker_A) 502 ∅), w')
      ∧ calls (trace w') = [].
Proof.
  assert (table !! strip (match_info_service (get " service9 ")) = None
          ∨ table !! strip (match_info_service (get " service9 ")) = Some [])
    as Hkey by (left; vm_compute; reflexivity).
  split; [exact Hkey|].
  destruct (gateway_no_route Json.loads Json.dumps sample_uuid table
              (get " service9 ") world0 Hkey) as (w' & Hrun & _ & Hcalls & _).
  exists w'. split; [exact Hrun | exact Hcalls].
Defined.

Lemma send_request_absorbs_witness :
  (send_request (service_b network) (u "GET") ∅ None world0).1
  = Returns (mkApiResponse marker_B 502 ∅ (u "service2"))
  ∧ (send_request service_d (u "GET") ∅ None world0).1
    = Returns (mkApiResponse marker_C 502 ∅ (u "service4"))
  ∧ ∃ results,
      (dispatch [service_a network; service_b network; service_d]
         (u "GET") ∅ None world0).1 = Returns results
      ∧ length results = 3%nat.
Proof.
  split_and!.
  - apply (proj1 (send_request_absorbs (service_b network) (u "GET") ∅ None world0)
             ClientConnectorError); [vm_compute; reflexivity | reflexivity].
  - apply (proj1 (proj2 (send_request_absorbs service_d (u "GET") ∅ None world0))
             (mkClientResponse 200 ∅ (Raises IOError)) IOError);
      [vm_compute; reflexivity | reflexivity | reflexivity].
  - apply (proj2 (proj2 (proj2
             (send_request_absorbs service_d (u "GET") ∅ None world0)))
             [service_a network; service_b network; service_d]).
    intros srv' Hin. repeat (apply elem_of_cons in Hin as [->|Hin]);
      [vm_compute; exact I | vm_compute; reflexivity | vm_compute; reflexivity |].
    by apply elem_of_nil in Hin.
Defined.

Lemma dispatch_one_reply_per_target_witness :
  (dispatch [service_a network; service_b network; service_c network]
     (u "GET") ∅ None world0).1
  = Returns [reply_a; reply_b; reply_c]
  ∧ length [reply_a; reply_b; reply_c] = 3%nat
  ∧ rname <$> [reply_a; reply_b; reply_c]
    = name <$> [service_a network; service_b network; service_c network].
Proof.
  assert ((dispatch [service_a network; service_b network; service_c network]
             (u "GET") ∅ None world0).1
          = Returns [reply_a; reply_b; reply_c]) as Hrun
    by (vm_compute; reflexivity).
  split; [exact Hrun|].
  destruct (proj1 (dispatch_one_reply_per_target
                     [service_a network; service_b network; service_c network]
                     (u "GET") ∅ None world0) _ Hrun) as (Hlen & Hnames & _).
  split; [exact Hlen | exact Hnames].
Defined.

(** C8 fails on the failures [send_request] does not catch. On the
    declared routes, let [service1] and [service3] answer. When
    [service2] does not accept the connection within the connection
    timeout, the call raises [ServerTimeoutError], which is not a
    [ClientConnectorError]; when it cuts the body short after the
    headers, [resp.read()] raises [ClientPayloadError], which is not an
    [IOError]. Neither gives a synthetic reply: the call raises, the
    fan-out of the route [grouped] raises although the two others
    answered, and the handler raises on [grouped] and on [service2]. *)
Theorem send_request_lets_failures_through :
  is_ClientConnectorError (OtherError "ServerTimeoutError") = false
  ∧ is_IOError (OtherError "ClientPayloadError") = false
  ∧ (send_request (service_a network_slow) (u "GET") ∅ None world0).1
    = Returns reply_a
  ∧ (send_request (service_b network_slow) (u "GET") ∅ None world0).1
    = Raises (OtherError "ServerTimeoutError")
  ∧ (send_request (service_b network_truncated) (u "GET") ∅ None world0).1
    = Raises (OtherError "ClientPayloadError")
  ∧ (dispatch [service_a network_slow; service_b network_slow;
               service_c network_slow] (u "GET") ∅ None world0).1
    = Raises (OtherError "ServerTimeoutError")
  ∧ (dispatch [service_a network_truncated; service_b network_truncated;
               service_c network_truncated] (u "GET") ∅ None world0).1
    = Raises (OtherError "ClientPayloadError")
  ∧ (gateway Json.loads Json.dumps sample_uuid (routing_table network_slow)
       (get "grouped") world0).1
    = Raises (OtherError "ServerTimeoutError")
  ∧ (gateway Json.loads Json.dumps sample_uuid (routing_table network_slow)
       (get "service2") world0).1
    = Raises (OtherError "ServerTimeoutError")
  ∧ (gateway Json.loads Json.dumps sample_uuid (routing_table network_truncated)
       (get "grouped") world0).1
    = Raises (OtherError "ClientPayloadError")
  ∧ (gateway Json.loads Json.dumps sample_uuid (routing_table network_truncated)
       (get "service2") world0).1
    = Raises (OtherError "ClientPayloadError").
Proof. split_and!; vm_compute; reflexivity. Qed.
End GatewayRuns.

(** * Further properties *)

(** ** The JSON scanner *)

Section JsonFacts.
Import Json.
Local Open Scope nat_scope.

Lemma skip_ws_length (s : str) : length (skip_ws s) ≤ length s.
Proof. induction s as [|c t IH]; simpl; [done|]. destruct (is_ws c); simpl; lia. Qed.

Lemma scanstring_shorter (n : nat) (s x r : str) :
  length s ≤ n → scanstring s = Some (x, r) → length r < length s.
Proof.
  revert s x r. induction n as [|n IH]; intros s x r Hn Hs.
  - destruct s; [done | simpl in Hn; lia].
  - destruct s as [|c t]; [done|]. simpl in Hs, Hn.
    assert (∀ t' c' x' r', length t' ≤ n →
              (scanstring t' ≫= λ '(x0, r0), Some (c' :: x0, r0)) = Some (x', r') →
              length r' < S (length t')) as Hstep.
    { intros t' c' x' r' Hlen Hb.
      destruct (scanstring t') as [[x0 r0]|] eqn:Ht; simpl in Hb; [|done].
      injection Hb as <- <-. apply IH in Ht; lia. }
    destruct (c =? 34)%N.
    { injection Hs as <- <-. simpl. lia. }
    destruct (c =? 92)%N.
    2:{ destruct (c <? 32)%N; [done|].
        assert (length t ≤ n) as Ht by lia.
        pose proof (Hstep _ _ _ _ Ht Hs). simpl; lia. }
    destruct t as [|e t1]; [done|]. simpl in Hn.
    destruct (e =? 117)%N.
    2:{ destruct (backslash e) as [ch|]; simpl in Hs; [|done].
        assert (length t1 ≤ n) as Ht by lia.
        pose proof (Hstep _ _ _ _ Ht Hs). simpl; lia. }
    destruct t1 as [|h1 [|h2 [|h3 [|h4 t2]]]]; try done. simpl in Hn.
    destruct (hex4 h1 h2 h3 h4) as [uni|]; simpl in Hs; [|done].
    assert (length t2 ≤ n) as Hlen2 by lia.
    assert (∀ x' r', (scanstring t2 ≫= λ '(x0, r0), Some (uni :: x0, r0))
                     = Some (x', r') → length r' < S (length t2)) as Hcont
      by (intros x' r'; apply Hstep; lia).
    simpl.
    destruct t2 as [|e1 [|e2 [|k1 [|k2 [|k3 [|k4 t3]]]]]];
      try (specialize (Hcont _ _ Hs); lia).
    destruct (Codec.is_high uni && (e1 =? 92)%N && (e2 =? 117)%N).
    2:{ specialize (Hcont _ _ Hs). lia. }
    destruct (hex4 k1 k2 k3 k4) as [uni2|]; simpl in Hs; [|done].
    destruct (Codec.is_low uni2).
    + simpl in Hlen2. assert (length t3 ≤ n) as Ht by lia.
      pose proof (Hstep _ _ _ _ Ht Hs). simpl. lia.
    + specialize (Hcont _ _ Hs). lia.
Qed.

Lemma span_digits_length (s ds r : str) :
  span_digits s = (ds, r) → length r ≤ length s.
Proof.
  revert ds r. induction s as [|c t IH]; intros ds r; simpl.
  - intros [= <- <-]. done.
  - destruct (is_digit c).
    + destruct (span_digits t) as [ds' r'] eqn:Ht. intros [= <- <-].
      specialize (IH _ _ eq_refl). lia.
    + intros [= <- <-]. simpl. lia.
Qed.

Lemma starts_with_length (w s r : str) :
  starts_with w s = Some r → length s = length w + length r.
Proof.
  revert s. induction w as [|a w IH]; intros s; simpl.
  - by intros [= ->].
  - destruct s as [|c s]; [done|]. destruct (a =? c)%N; [|done].
    intros H%IH. simpl. lia.
Qed.

Lemma match_number_shorter (s integer frac exp r : str) :
  match_number s = Some (integer, frac, exp, r) → length r < length s.
Proof.
  unfold match_number.
  set (p := match s with
            | [] => ([], s)
            | c :: t => if (c =? 45)%N then ([45%N], t) else ([], s)
            end).
  assert (length p.2 ≤ length s) as Hp.
  { subst p. destruct s as [|c t]; simpl; [done|].
    destruct (c =? 45)%N; simpl; lia. }
  destruct p as [sign s1]. simpl in Hp.
  destruct s1 as [|c t]; [done|]. simpl in Hp.
  set (q := if (c =? 48)%N then Some (sign ++ [48%N], t)
            else if is_digit c
                 then let '(ds, r0) := span_digits t in Some (sign ++ c :: ds, r0)
                 else None).
  assert (∀ i r0, q = Some (i, r0) → length r0 ≤ length t) as Hq.
  { subst q. intros i r0. destruct (c =? 48)%N; [by intros [= <- <-]|].
    destruct (is_digit c); [|done].
    destruct (span_digits t) as [ds r1] eqn:Hsp. intros [= <- <-].
    by eapply span_digits_length. }
  destruct q as [[i r0]|]; simpl; [|done].
  specialize (Hq _ _ eq_refl).
  set (f := match r0 with
            | [] => ([], r0)
            | c0 :: t0 =>
                if (c0 =? 46)%N
                then match span_digits t0 with
                     | ([], _) => ([], r0)
                     | (ds, r') => (46%N :: ds, r')
                     end
                else ([], r0)
            end).
  assert (length f.2 ≤ length r0) as Hf.
  { subst f. destruct r0 as [|c0 t0]; simpl; [done|].
    destruct (c0 =? 46)%N; simpl; [|lia].
    destruct (span_digits t0) as [[|d ds] r'] eqn:Hsp; simpl; [lia|].
    apply span_digits_length in Hsp. lia. }
  destruct f as [fr r1]. simpl in Hf.
  set (g := match r1 with
            | [] => ([], r1)
            | e :: t0 =>
                if (e =? 101)%N || (e =? 69)%N
                then
                  let '(sg, t') :=
                    match t0 with
                    | [] => ([], t0)
                    | g0 :: t'' =>
                        if (g0 =? 43)%N || (g0 =? 45)%N then ([g0], t'') else ([], t0)
                    end in
                  match span_digits t' with
                  | ([], _) => ([], r1)
                  | (ds, r') => (e :: sg ++ ds, r')
                  end
                else ([], r1)
            end).
  assert (length g.2 ≤ length r1) as Hg.
  { subst g. destruct r1 as [|e t0]; simpl; [done|].
    destruct ((e =? 101)%N || (e =? 69)%N); simpl; [|lia].
    set (h := match t0 with
              | [] => ([], t0)
              | g0 :: t'' =>
                  if (g0 =? 43)%N || (g0 =? 45)%N then ([g0], t'') else ([], t0)
              end).
    assert (length h.2 ≤ length t0) as Hh.
    { subst h. destruct t0 as [|g0 t'']; simpl; [done|].
      destruct ((g0 =? 43)%N || (g0 =? 45)%N); simpl; lia. }
    destruct h as [sg t']. simpl in Hh.
    destruct (span_digits t') as [[|d ds] r'] eqn:Hsp; simpl; [lia|].
    apply span_digits_length in Hsp. lia. }
  destruct g as [ex r2]. simpl in Hg.
  intros [= <- <- <- <-]. lia.
Qed.

Lemma scan_adequate (fuel : nat) :
  (∀ s, 2 * length s + 1 ≤ fuel → scanned s (scan_once fuel s))
  ∧ (∀ vs s, 2 * length s + 2 ≤ fuel → scanned s (array_loop fuel vs s))
  ∧ (∀ ps s, 2 * length s + 2 ≤ fuel → scanned s (object_loop fuel ps s)).
Proof.
  induction fuel as [|fuel (IHs & IHa & IHo)].
  { split_and!; intros; lia. }
  split_and!.
  - intros s Hf. destruct s as [|c t]; [done|]. simpl in Hf.
    cbn -[starts_with match_number u skip_ws scanstring].
    destruct (c =? 34)%N.
    { destruct (scanstring t) as [[x r]|] eqn:Hx; simpl; [|done].
      apply (scanstring_shorter _ _ _ _ (le_n _)) in Hx. lia. }
    destruct (c =? 123)%N.
    { pose proof (skip_ws_length t) as Hws.
      destruct (skip_ws t) as [|c1 r] eqn:EHws; rewrite ?EHws in Hws; simpl in *; [done|].
      destruct (c1 =? 125)%N; [simpl; lia|].
      destruct (c1 =? 34)%N; [|done].
      assert (2 * length r + 2 ≤ fuel) as Hr by lia.
      specialize (IHo [] r Hr). unfold scanned in *.
      destruct (object_loop fuel [] r) as [[v r']|e] eqn:Eo; rewrite ?Eo in IHo;
        [simpl in *; lia | done]. }
    destruct (c =? 91)%N.
    { pose proof (skip_ws_length t) as Hws.
      destruct (skip_ws t) as [|c1 r] eqn:EHws; rewrite ?EHws in Hws; simpl in *.
      - assert (2 * length (@nil N) + 2 ≤ fuel) as Hr by (simpl; lia).
        specialize (IHa [] [] Hr). unfold scanned in *.
        destruct (array_loop fuel [] []) as [[v r']|e] eqn:Eo; rewrite ?Eo in IHa;
          [simpl in *; lia | done].
      - destruct (c1 =? 93)%N; [simpl; lia|].
        assert (2 * length (c1 :: r) + 2 ≤ fuel) as Hr by (simpl; lia).
        specialize (IHa [] (c1 :: r) Hr). unfold scanned in *.
        destruct (array_loop fuel [] (c1 :: r)) as [[v r']|e] eqn:Eo; rewrite ?Eo in IHa;
          [simpl in *; lia | done]. }
    unfold scanned.
    destruct (starts_with (u "null") (c :: t)) eqn:Hnull.
    { apply starts_with_length in Hnull. simpl in *. lia. }
    destruct (starts_with (u "true") (c :: t)) eqn:Htrue.
    { apply starts_with_length in Htrue. simpl in *. lia. }
    destruct (starts_with (u "false") (c :: t)) eqn:Hfalse.
    { apply starts_with_length in Hfalse. simpl in *. lia. }
    destruct (match_number (c :: t)) as [[[[i f] e] r]|] eqn:Hm.
    { apply match_number_shorter in Hm. destruct f, e; simpl in *; lia. }
    destruct (starts_with (u "NaN") (c :: t)) eqn:Hnan.
    { apply starts_with_length in Hnan. simpl in *. lia. }
    destruct (starts_with (u "Infinity") (c :: t)) eqn:Hinf.
    { apply starts_with_length in Hinf. simpl in *. lia. }
    destruct (starts_with (u "-Infinity") (c :: t)) eqn:Hninf.
    { apply starts_with_length in Hninf. simpl in *. lia. }
    done.
  - intros vs s Hf. simpl.
    assert (2 * length s + 1 ≤ fuel) as Hs by lia.
    specialize (IHs s Hs). unfold scanned in IHs.
    destruct (scan_once fuel s) as [[v r]|e] eqn:Es; rewrite ?Es in IHs; simpl; [|done].
    pose proof (skip_ws_length r) as Hws.
    destruct (skip_ws r) as [|c r1] eqn:EHws; rewrite ?EHws in Hws; simpl in *; [done|].
    destruct (c =? 93)%N; [simpl; lia|].
    destruct (c =? 44)%N; [|done].
    pose proof (skip_ws_length r1) as Hws1.
    assert (2 * length (skip_ws r1) + 2 ≤ fuel) as Hr1 by lia.
    specialize (IHa (vs ++ [v]) (skip_ws r1) Hr1). unfold scanned in *.
    destruct (array_loop fuel (vs ++ [v]) (skip_ws r1)) as [[v' r']|e] eqn:Eo; rewrite ?Eo in IHa;
      [simpl in *; lia | done].
  - intros ps s Hf. simpl.
    destruct (scanstring s) as [[key r]|] eqn:Hx; simpl; [|done].
    apply (scanstring_shorter _ _ _ _ (le_n _)) in Hx.
    pose proof (skip_ws_length r) as Hws.
    destruct (skip_ws r) as [|c0 r1] eqn:EHws; rewrite ?EHws in Hws; simpl in *; [done|].
    destruct (c0 =? 58)%N; [|done].
    pose proof (skip_ws_length r1) as Hws1.
    assert (2 * length (skip_ws r1) + 1 ≤ fuel) as Hr1 by lia.
    specialize (IHs (skip_ws r1) Hr1). unfold scanned in IHs.
    destruct (scan_once fuel (skip_ws r1)) as [[v r2]|e] eqn:Es; rewrite ?Es in IHs;
      simpl; [|done].
    pose proof (skip_ws_length r2) as Hws2.
    destruct (skip_ws r2) as [|c r3] eqn:EHws2; rewrite ?EHws2 in Hws2; simpl in *; [done|].
    destruct (c =? 125)%N; [simpl; lia|].
    destruct (c =? 44)%N; [|done].
    pose proof (skip_ws_length r3) as Hws3.
    destruct (skip_ws r3) as [|c4 r4] eqn:EHws3; rewrite ?EHws3 in Hws3; simpl in *; [done|].
    destruct (c4 =? 34)%N; [|done].
    assert (2 * length r4 + 2 ≤ fuel) as Hr4 by lia.
    specialize (IHo (ps ++ [(key, v)]) r4 Hr4). unfold scanned in *.
    destruct (object_loop fuel (ps ++ [(key, v)]) r4) as [[v' r']|e] eqn:Eo; rewrite ?Eo in IHo;
      [simpl in *; lia | done].
Qed.

(** [json.loads] raises nothing but a [ValueError]: the model never
    runs out of fuel. *)
Lemma decode_raises (s : str) (e : exn) :
  decode s = Raises e → e = JSONDecodeError.
Proof.
  unfold decode.
  pose proof (skip_ws_length s) as Hws.
  assert (2 * length (skip_ws s) + 1 ≤ S (2 * length s)) as Hf by lia.
  pose proof (proj1 (scan_adequate _) _ Hf) as Hsc. unfold scanned in Hsc.
  destruct (scan_once _ _) as [[v r]|e'] eqn:Es; rewrite ?Es in Hsc; simpl.
  - destruct (skip_ws r); [done | by intros [= <-]].
  - by intros [= <-].
Qed.

Lemma loads_raises (data : bytes) (e : exn) :
  loads data = Raises e → is_ValueError e = true.
Proof.
  unfold loads, Codec.decode.
  destruct (Codec.decode_N _ _ _) as [s|]; simpl.
  - by intros ->%decode_raises.
  - by intros [= <-].
Qed.
End JsonFacts.

(** ** The encoder, read back *)

Section JsonReadBack.
Import Json.
Local Open Scope N_scope.

(** *** Numbers *)

(** Digits are spanned alike when a text that starts with no digit
    follows. *)
Lemma span_digits_app (s ds r rest : str) :
  span_digits s = (ds, r) →
  (∀ c t, rest = c :: t → is_digit c = false) →
  span_digits (s ++ rest) = (ds, r ++ rest).
Proof.
  intros Hs Hrest. revert ds r Hs. induction s as [|c t IH]; intros ds r; simpl.
  - intros [= <- <-]. simpl. destruct rest as [|c t]; [done|].
    simpl. by rewrite (Hrest c t eq_refl).
  - destruct (is_digit c).
    + destruct (span_digits t) as [ds' r'] eqn:Ht. intros [= <- <-].
      by rewrite (IH _ _ eq_refl).
    + by intros [= <- <-].
Qed.

Lemma delimited_head (rest : str) (P : N → bool) :
  delimited rest → P 44 = false → P 93 = false → P 125 = false →
  ∀ c t, rest = c :: t → P c = false.
Proof.
  intros Hd H1 H2 H3 c t ->. simpl in Hd. by destruct Hd as [->|[->| ->]].
Qed.

(** What [NUMBER_RE] matches is matched alike before a delimiter. *)
Lemma match_number_app (s integer frac exp r rest : str) :
  match_number s = Some (integer, frac, exp, r) →
  delimited rest →
  match_number (s ++ rest) = Some (integer, frac, exp, r ++ rest).
Proof.
  intros Hm Hd.
  assert (∀ a ds r0, span_digits a = (ds, r0) →
            span_digits (a ++ rest) = (ds, r0 ++ rest)) as Hspan.
  { intros a ds r0 Ha. apply span_digits_app; [done|].
    by apply delimited_head. }
  unfold match_number in *.
  destruct s as [|c0 s0]; [done|]. cbn [app].
  (* the sign *)
  assert (∃ sign s1,
            (if c0 =? 45 then ([45], s0) else ([], c0 :: s0)) = (sign, s1)
            ∧ (if c0 =? 45 then ([45], s0 ++ rest) else ([], c0 :: s0 ++ rest))
              = (sign, s1 ++ rest) ∧ s1 = s1) as (sign & s1 & E1 & E2 & _).
  { destruct (c0 =? 45); eexists _, _; split_and!; reflexivity. }
  rewrite E1 in Hm. rewrite E2. clear E1 E2.
  destruct s1 as [|c t]; [done|]. cbn [app].
  (* the integer part *)
  set (q := if c =? 48 then Some (sign ++ [48], t)
            else if is_digit c
                 then let '(ds, r0) := span_digits t in Some (sign ++ c :: ds, r0)
                 else None) in Hm.
  assert (∀ i r0, q = Some (i, r0) →
            (if c =? 48 then Some (sign ++ [48], t ++ rest)
             else if is_digit c
                  then let '(ds, r1) := span_digits (t ++ rest) in
                       Some (sign ++ c :: ds, r1)
                  else None) = Some (i, r0 ++ rest)) as Hq.
  { subst q. intros i r0. destruct (c =? 48); [by intros [= <- <-]|].
    destruct (is_digit c); [|done].
    destruct (span_digits t) as [ds r1] eqn:Hsp. intros [= <- <-].
    by rewrite (Hspan _ _ _ Hsp). }
  destruct q as [[i r0]|]; [|done]. rewrite (Hq _ _ eq_refl). clear Hq.
  cbn [mbind option_bind] in *.
  (* the fraction *)
  set (f := match r0 with
            | [] => ([], r0)
            | c1 :: t0 =>
                if c1 =? 46
                then match span_digits t0 with
                     | ([], _) => ([], r0)
                     | (ds, r') => (46 :: ds, r')
                     end
                else ([], r0)
            end) in Hm.
  assert ((match r0 ++ rest with
           | [] => ([], r0 ++ rest)
           | c1 :: t0 =>
               if c1 =? 46
               then match span_digits t0 with
                    | ([], _) => ([], r0 ++ rest)
                    | (ds, r') => (46 :: ds, r')
                    end
               else ([], r0 ++ rest)
           end) = (f.1, f.2 ++ rest)) as Hf.
  { subst f. destruct r0 as [|c1 t0]; cbn [app].
    - destruct rest as [|c1 t0]; [done|].
      assert ((c1 =? 46) = false) as ->; [|done].
      by apply (delimited_head (c1 :: t0) (λ c, c =? 46) Hd eq_refl eq_refl eq_refl c1 t0).
    - destruct (c1 =? 46); [|done].
      destruct (span_digits t0) as [ds r'] eqn:Hsp. rewrite (Hspan _ _ _ Hsp).
      by destruct ds. }
  destruct f as [fr r1]. rewrite Hf. clear Hf. cbn [fst snd].
  (* the exponent *)
  set (g := match r1 with
            | [] => ([], r1)
            | e :: t0 =>
                if (e =? 101) || (e =? 69)
                then
                  let '(sg, t') :=
                    match t0 with
                    | [] => ([], t0)
                    | g0 :: t'' =>
                        if (g0 =? 43) || (g0 =? 45) then ([g0], t'') else ([], t0)
                    end in
                  match span_digits t' with
                  | ([], _) => ([], r1)
                  | (ds, r') => (e :: sg ++ ds, r')
                  end
                else ([], r1)
            end) in Hm.
  assert ((match r1 ++ rest with
           | [] => ([], r1 ++ rest)
           | e :: t0 =>
               if (e =? 101) || (e =? 69)
               then
                 let '(sg, t') :=
                   match t0 with
                   | [] => ([], t0)
                   | g0 :: t'' =>
                       if (g0 =? 43) || (g0 =? 45) then ([g0], t'') else ([], t0)
                   end in
                 match span_digits t' with
                 | ([], _) => ([], r1 ++ rest)
                 | (ds, r') => (e :: sg ++ ds, r')
                 end
               else ([], r1 ++ rest)
           end) = (g.1, g.2 ++ rest)) as Hg.
  { subst g. destruct r1 as [|e t0]; cbn [app].
    - destruct rest as [|e t0]; [done|].
      assert ((e =? 101) || (e =? 69) = false) as ->; [|done].
      by apply (delimited_head (e :: t0) (λ c, (c =? 101) || (c =? 69)) Hd
                  eq_refl eq_refl eq_refl e t0).
    - destruct ((e =? 101) || (e =? 69)); [|done].
      destruct t0 as [|g0 t'']; cbn [app].
      + (* nothing after the letter *)
        assert (span_digits rest = ([], rest)) as Hr.
        { apply (Hspan [] [] []). reflexivity. }
        destruct rest as [|g0 t'']; [done|].
        assert ((g0 =? 43) || (g0 =? 45) = false) as ->.
        { by apply (delimited_head (g0 :: t'') (λ c, (c =? 43) || (c =? 45)) Hd
                      eq_refl eq_refl eq_refl g0 t''). }
        by rewrite Hr.
      + destruct ((g0 =? 43) || (g0 =? 45)).
        * destruct (span_digits t'') as [ds r'] eqn:Hsp.
          rewrite (Hspan _ _ _ Hsp). by destruct ds.
        * destruct (span_digits (g0 :: t'')) as [ds r'] eqn:Hsp.
          change (g0 :: t'' ++ rest) with ((g0 :: t'') ++ rest).
          rewrite (Hspan _ _ _ Hsp). by destruct ds. }
  destruct g as [ex r2]. rewrite Hg. cbn [fst snd].
  by injection Hm as <- <- <- <-.
Qed.


Lemma is_digit_range (c : N) : is_digit c = true ↔ 48 ≤ c ≤ 57.
Proof. unfold is_digit. rewrite andb_true_iff, !N.leb_le. done. Qed.

Lemma match_number_head (s integer frac exp r : str) :
  match_number s = Some (integer, frac, exp, r) →
  ∃ c t, s = c :: t ∧ (c = 45 ∨ is_digit c = true).
Proof.
  unfold match_number. destruct s as [|c0 s0]; [done|].
  intros Hm. exists c0, s0. split; [done|].
  destruct (c0 =? 45) eqn:E; [left; by apply N.eqb_eq|]. right.
  destruct (c0 =? 48) eqn:E0; [apply N.eqb_eq in E0 as ->; done|].
  destruct (is_digit c0); [done|]. done.
Qed.

Lemma starts_with_ne (w : str) (c : N) (t : str) (a : N) (w' : str) :
  w = a :: w' → a ≠ c → starts_with w (c :: t) = None.
Proof. intros -> H. simpl. apply N.eqb_neq in H. by rewrite H. Qed.

(** On a text [NUMBER_RE] matches, the scanner returns the number. *)
Lemma scan_once_number (fuel : nat) (s integer frac exp r : str) :
  match_number s = Some (integer, frac, exp, r) →
  scan_once (S fuel) s
  = Returns (match frac, exp with
             | [], [] => VInt (parse_int integer)
             | _, _ => VFloat (integer ++ frac ++ exp)
             end, r).
Proof.
  intros Hm. destruct (match_number_head _ _ _ _ _ Hm) as (c & t & -> & Hc).
  assert (c ≠ 34 ∧ c ≠ 123 ∧ c ≠ 91 ∧ c ≠ 110 ∧ c ≠ 116 ∧ c ≠ 102) as Hne.
  { destruct Hc as [->|Hc%is_digit_range]; [done|]. lia. }
  destruct Hne as (H1 & H2 & H3 & H4 & H5 & H6).
  cbn -[match_number u starts_with N.eqb].
  apply N.eqb_neq in H1, H2, H3. rewrite H1, H2, H3.
  rewrite (starts_with_ne (u "null"%string) c t 110 (u "ull"%string))
    by (reflexivity || lia).
  rewrite (starts_with_ne (u "true"%string) c t 116 (u "rue"%string))
    by (reflexivity || lia).
  rewrite (starts_with_ne (u "false"%string) c t 102 (u "alse"%string))
    by (reflexivity || lia).
  rewrite Hm. by destruct frac, exp.
Qed.

Lemma str_of_uint_digits (d : Decimal.uint) :
  Forall (λ c, is_digit c = true) (str_of_uint d).
Proof. induction d; simpl; constructor; done. Qed.

Lemma span_digits_all (ds : str) :
  Forall (λ c, is_digit c = true) ds → span_digits ds = (ds, []).
Proof.
  induction 1 as [|c ds Hc _ IH]; simpl; [done|]. by rewrite Hc, IH.
Qed.

(** The decimal digits of a positive number start with no zero. *)
Lemma to_uint_head (p : positive) :
  ∃ c ds, str_of_uint (Pos.to_uint p) = c :: ds
          ∧ is_digit c = true ∧ c ≠ 48
          ∧ Forall (λ c, is_digit c = true) ds.
Proof.
  pose proof (str_of_uint_digits (Pos.to_uint p)) as Hall.
  assert (Decimal.unorm (Pos.to_uint p) = Pos.to_uint p) as Hnorm.
  { pose proof (DecimalPos.Unsigned.to_of (Pos.to_uint p)) as H.
    rewrite DecimalPos.Unsigned.of_to in H. exact (eq_sym H). }
  destruct (Pos.to_uint p) as [|d|d|d|d|d|d|d|d|d|d] eqn:E.
  - by apply DecimalPos.Unsigned.to_uint_nonnil in E.
  - exfalso. rewrite DecimalFacts.unorm_D0 in Hnorm.
    unfold Decimal.unorm in Hnorm.
    destruct (Decimal.nzhead d) eqn:Hz;
      try (by eapply DecimalFacts.nzhead_nonzero; rewrite Hz; exact Hnorm).
    injection Hnorm as <-.
    by apply (DecimalPos.Unsigned.to_uint_nonzero p).
  - simpl in *. apply Forall_cons in Hall as [? ?]. by eexists _, _.
  - simpl in *. apply Forall_cons in Hall as [? ?]. by eexists _, _.
  - simpl in *. apply Forall_cons in Hall as [? ?]. by eexists _, _.
  - simpl in *. apply Forall_cons in Hall as [? ?]. by eexists _, _.
  - simpl in *. apply Forall_cons in Hall as [? ?]. by eexists _, _.
  - simpl in *. apply Forall_cons in Hall as [? ?]. by eexists _, _.
  - simpl in *. apply Forall_cons in Hall as [? ?]. by eexists _, _.
  - simpl in *. apply Forall_cons in Hall as [? ?]. by eexists _, _.
  - simpl in *. apply Forall_cons in Hall as [? ?]. by eexists _, _.
Qed.

Lemma match_number_digits (sign : str) (c : N) (ds : str) :
  (sign = [] ∨ sign = [45]) →
  is_digit c = true → c ≠ 48 →
  Forall (λ c, is_digit c = true) ds →
  match_number (sign ++ c :: ds) = Some (sign ++ c :: ds, [], [], []).
Proof.
  intros Hsign Hc H48 Hds. unfold match_number.
  assert (c ≠ 45) as H45 by (apply is_digit_range in Hc; lia).
  apply N.eqb_neq in H45, H48.
  destruct Hsign as [-> | ->]; cbn [app].
  - rewrite H45, H48, Hc, (span_digits_all _ Hds). done.
  - cbn. rewrite H48, Hc, (span_digits_all _ Hds). done.
Qed.

(** [NUMBER_RE] matches the whole of [str(z)], as an integer. *)
Lemma match_number_int (z : Z) :
  match_number (str_of_Z z) = Some (str_of_Z z, [], [], []).
Proof.
  unfold str_of_Z. destruct z as [|p|p]; cbn [Z.to_int].
  - reflexivity.
  - destruct (to_uint_head p) as (c & ds & -> & Hc & H48 & Hds).
    by apply (match_number_digits []); [left|..].
  - destruct (to_uint_head p) as (c & ds & -> & Hc & H48 & Hds).
    by apply (match_number_digits [45]); [right|..].
Qed.

(** *** Strings *)

Lemma hexval_hexdigit (x : N) : x < 16 → hexval (hexdigit x) = Some x.
Proof.
  intros Hx. unfold hexdigit, hexval, is_digit.
  destruct (x <? 10) eqn:E.
  - apply N.ltb_lt in E.
    assert ((48 <=? 48 + x) && (48 + x <=? 57) = true) as ->.
    { apply andb_true_iff. split; apply N.leb_le; lia. }
    f_equal. lia.
  - apply N.ltb_ge in E.
    assert ((48 <=? 87 + x) && (87 + x <=? 57) = false) as ->.
    { apply andb_false_iff. right. apply N.leb_gt. lia. }
    assert ((97 <=? 87 + x) && (87 + x <=? 102) = true) as ->.
    { apply andb_true_iff. split; apply N.leb_le; lia. }
    f_equal. lia.
Qed.

(** The four digits of [\uXXXX] are read back as the number written. *)
Lemma hex4_u_escape (n : N) :
  n < 65536 →
  ∃ h1 h2 h3 h4,
    u_escape n = [92; 117; h1; h2; h3; h4] ∧ hex4 h1 h2 h3 h4 = Some n.
Proof.
  intros Hn. unfold u_escape. eexists _, _, _, _. split; [reflexivity|].
  unfold hex4.
  assert (n / 4096 mod 16 < 16) as H3 by (apply N.mod_lt; lia).
  assert (n / 256 mod 16 < 16) as H2 by (apply N.mod_lt; lia).
  assert (n / 16 mod 16 < 16) as H1 by (apply N.mod_lt; lia).
  assert (n mod 16 < 16) as H0 by (apply N.mod_lt; lia).
  rewrite !hexval_hexdigit by done. cbn [mbind option_bind]. f_equal.
  assert (n / 16 / 16 = n / 256) as E1 by (by rewrite N.Div0.div_div).
  assert (n / 256 / 16 = n / 4096) as E2 by (by rewrite N.Div0.div_div).
  assert (n / 4096 < 16) as E3 by (apply N.Div0.div_lt_upper_bound; lia).
  pose proof (N.div_mod' n 16) as D0.
  pose proof (N.div_mod' (n / 16) 16) as D1.
  pose proof (N.div_mod' (n / 256) 16) as D2.
  rewrite (N.mod_small (n / 4096) 16) by done.
  rewrite E1 in D1. rewrite E2 in D2. lia.
Qed.

Lemma scanstring_plain (c : N) (t : str) :
  32 ≤ c → c ≠ 34 → c ≠ 92 →
  scanstring (c :: t) = scanstring t ≫= λ '(x, r), Some (c :: x, r).
Proof.
  intros H32 H34 H92. cbn [scanstring].
  apply N.eqb_neq in H34, H92. rewrite H34, H92.
  assert ((c <? 32) = false) as -> by (by apply N.ltb_ge). done.
Qed.

Lemma scanstring_backslash (e ch : N) (t : str) :
  e ≠ 117 → backslash e = Some ch →
  scanstring (92 :: e :: t) = scanstring t ≫= λ '(x, r), Some (ch :: x, r).
Proof.
  intros H117 Hb. cbn [scanstring]. cbn [N.eqb Pos.eqb].
  apply N.eqb_neq in H117. rewrite H117, Hb. done.
Qed.

(** After [\uXXXX], the scanner goes on from what follows unless the
    escape is a high surrogate and a second escape follows. *)
Lemma scanstring_u_first (h1 h2 h3 h4 uni : N) (t2 : str) :
  hex4 h1 h2 h3 h4 = Some uni →
  (Codec.is_high uni = false
   ∨ (∃ e1 t, t2 = e1 :: t ∧ e1 ≠ 92)
   ∨ (∃ e2 t, t2 = 92 :: e2 :: t ∧ e2 ≠ 117)) →
  scanstring (92 :: 117 :: h1 :: h2 :: h3 :: h4 :: t2)
  = scanstring t2 ≫= λ '(x, r), Some (uni :: x, r).
Proof.
  intros Hh Hcase.
  cbn [scanstring]. cbn [N.eqb Pos.eqb]. rewrite Hh.
  cbn [mbind option_bind].
  destruct t2 as [|e1 t2]; [reflexivity|].
  destruct t2 as [|e2 t2]; [reflexivity|].
  destruct t2 as [|k1 t2]; [reflexivity|].
  destruct t2 as [|k2 t2]; [reflexivity|].
  destruct t2 as [|k3 t2]; [reflexivity|].
  destruct t2 as [|k4 t3]; [reflexivity|].
  assert (Codec.is_high uni && (e1 =? 92) && (e2 =? 117) = false) as ->; [|done].
  destruct Hcase as [->|[(e & t & Heq & Hne)|(e & t & Heq & Hne)]].
  - done.
  - injection Heq as -> _.
    apply N.eqb_neq in Hne. rewrite Hne. by rewrite andb_false_r.
  - injection Heq as -> -> _.
    apply N.eqb_neq in Hne. rewrite Hne. by rewrite andb_false_r.
Qed.

Lemma scanstring_u_second (h1 h2 h3 h4 uni k1 k2 k3 k4 uni2 : N) (t3 : str) :
  hex4 h1 h2 h3 h4 = Some uni →
  hex4 k1 k2 k3 k4 = Some uni2 →
  scanstring (92 :: 117 :: h1 :: h2 :: h3 :: h4
              :: 92 :: 117 :: k1 :: k2 :: k3 :: k4 :: t3)
  = if Codec.is_high uni && Codec.is_low uni2
    then scanstring t3
         ≫= λ '(x, r),
              Some ((65536 + (uni - 55296) * 1024 + (uni2 - 56320)) :: x, r)
    else scanstring (92 :: 117 :: k1 :: k2 :: k3 :: k4 :: t3)
         ≫= λ '(x, r), Some (uni :: x, r).
Proof.
  intros Hh Hk.
  destruct (Codec.is_high uni) eqn:Hhigh.
  2: { apply scanstring_u_first; [done | by left]. }
  set (tail := 92 :: 117 :: k1 :: k2 :: k3 :: k4 :: t3).
  cbn [scanstring]. cbn [N.eqb Pos.eqb]. rewrite Hh.
  cbn [mbind option_bind]. subst tail. cbv iota beta.
  rewrite Hhigh. cbn [andb N.eqb Pos.eqb]. rewrite Hk.
  cbn [mbind option_bind]. reflexivity.
Qed.

(** The four forms of the replacement of a code point. *)
Lemma escape_shape (c : N) :
  (∃ e, escape_char c = [92; e] ∧ e ≠ 117 ∧ backslash e = Some c)
  ∨ (escape_char c = [c] ∧ 32 ≤ c ∧ c ≠ 34 ∧ c ≠ 92)
  ∨ (∃ h1 h2 h3 h4,
       escape_char c = [92; 117; h1; h2; h3; h4]
       ∧ hex4 h1 h2 h3 h4 = Some c)
  ∨ (∃ h1 h2 h3 h4 k1 k2 k3 k4 hi lo,
       escape_char c = [92; 117; h1; h2; h3; h4; 92; 117; k1; k2; k3; k4]
       ∧ hex4 h1 h2 h3 h4 = Some hi ∧ hex4 k1 k2 k3 k4 = Some lo
       ∧ Codec.is_high hi = true ∧ Codec.is_low lo = true
       ∧ 65536 ≤ c
       ∧ (c < 1114112 → 65536 + (hi - 55296) * 1024 + (lo - 56320) = c)).
Proof.
  unfold escape_char.
  destruct (c =? 34) eqn:E34;
    [apply N.eqb_eq in E34 as ->; left; by exists 34|].
  destruct (c =? 92) eqn:E92;
    [apply N.eqb_eq in E92 as ->; left; by exists 92|].
  destruct (c =? 10) eqn:E10;
    [apply N.eqb_eq in E10 as ->; left; by exists 110|].
  destruct (c =? 13) eqn:E13;
    [apply N.eqb_eq in E13 as ->; left; by exists 114|].
  destruct (c =? 9) eqn:E9;
    [apply N.eqb_eq in E9 as ->; left; by exists 116|].
  destruct (c =? 12) eqn:E12;
    [apply N.eqb_eq in E12 as ->; left; by exists 102|].
  destruct (c =? 8) eqn:E8;
    [apply N.eqb_eq in E8 as ->; left; by exists 98|].
  apply N.eqb_neq in E34, E92.
  destruct ((32 <=? c) && (c <=? 126)) eqn:Eprint.
  { right; left. apply andb_true_iff in Eprint as [H32%N.leb_le _]. done. }
  destruct (c <? 65536) eqn:Ebmp.
  { right; right; left. apply N.ltb_lt in Ebmp.
    destruct (hex4_u_escape c Ebmp) as (h1 & h2 & h3 & h4 & -> & Hh).
    by exists h1, h2, h3, h4. }
  right; right; right. apply N.ltb_ge in Ebmp. cbv zeta.
  set (v := c - 65536).
  assert ((v / 1024) mod 1024 < 1024) as Hhi by (apply N.mod_lt; lia).
  assert (v mod 1024 < 1024) as Hlo by (apply N.mod_lt; lia).
  assert (55296 + (v / 1024) mod 1024 < 65536) as Bhi
    by (revert Hhi; generalize ((v / 1024) mod 1024); intros; lia).
  assert (56320 + v mod 1024 < 65536) as Blo
    by (revert Hlo; generalize (v mod 1024); intros; lia).
  destruct (hex4_u_escape _ Bhi) as (h1 & h2 & h3 & h4 & -> & Hh).
  destruct (hex4_u_escape _ Blo) as (k1 & k2 & k3 & k4 & -> & Hk).
  exists h1, h2, h3, h4, k1, k2, k3, k4, (55296 + (v / 1024) mod 1024),
    (56320 + v mod 1024).
  split_and!; [done..| | | done |].
  - unfold Codec.is_high. apply andb_true_iff. revert Hhi.
    generalize ((v / 1024) mod 1024). intros x Hx.
    split; apply N.leb_le; lia.
  - unfold Codec.is_low. apply andb_true_iff. revert Hlo.
    generalize (v mod 1024). intros x Hx.
    split; apply N.leb_le; lia.
  - intros Hmax.
    assert (v < 1048576 ∧ 65536 + v = c) as [Hv Hc] by (subst v; lia).
    clearbody v.
    assert (v / 1024 < 1024) as Hsmall
      by (apply N.Div0.div_lt_upper_bound; exact Hv).
    rewrite (N.mod_small (v / 1024) 1024) by done.
    pose proof (N.div_mod' v 1024) as Hdm. rewrite <- Hc.
    revert Hdm. generalize (v / 1024) (v mod 1024). intros a b Hdm. lia.
Qed.

(** The scanner reads the text of any string to its closing quote. *)
Lemma scanstring_escaped (n : nat) (s rest : str) :
  (length s ≤ n)%nat →
  ∃ x, scanstring (flat_map escape_char s ++ 34 :: rest) = Some (x, rest).
Proof.
  revert s. induction n as [|n IH]; intros s Hn.
  { destruct s; [|simpl in Hn; lia]. by exists []. }
  destruct s as [|c s]; [by exists []|].
  simpl in Hn. cbn [flat_map]. rewrite <- app_assoc.
  destruct (IH s ltac:(lia)) as [x Hx].
  set (t := flat_map escape_char s ++ 34 :: rest) in *.
  destruct (escape_shape c)
    as [(e & -> & He & Hb)
       |[(-> & H32 & H34 & H92)
        |[(h1 & h2 & h3 & h4 & -> & Hh)
         |(h1 & h2 & h3 & h4 & k1 & k2 & k3 & k4 & hi & lo
           & -> & Hh & Hk & Hhi & Hlo & _)]]]; cbn [app].
  - rewrite (scanstring_backslash e c t He Hb), Hx. by eexists.
  - rewrite (scanstring_plain c t H32 H34 H92), Hx. by eexists.
  - (* one escape: it pairs with the next when both are surrogates *)
    destruct s as [|c2 s2].
    { rewrite (scanstring_u_first h1 h2 h3 h4 c t Hh), Hx; [by eexists|].
      right; left. by exists 34, rest. }
    subst t. cbn [flat_map] in *. rewrite <- app_assoc in *.
    set (t2 := flat_map escape_char s2 ++ 34 :: rest) in *.
    destruct (escape_shape c2)
      as [(e & Hc2 & He & Hb)
         |[(Hc2 & H32 & H34 & H92)
          |[(k1 & k2 & k3 & k4 & Hc2 & Hk)
           |(k1 & k2 & k3 & k4 & l1 & l2 & l3 & l4 & hi & lo
             & Hc2 & Hk & Hl & Hhi & Hlo & _)]]];
      rewrite Hc2 in *; cbn [app] in *.
    + rewrite (scanstring_u_first h1 h2 h3 h4 c _ Hh), Hx; [by eexists|].
      right; right. by exists e, t2.
    + rewrite (scanstring_u_first h1 h2 h3 h4 c _ Hh), Hx; [by eexists|].
      right; left. exists c2, t2. split; [done|]. lia.
    + rewrite (scanstring_u_second h1 h2 h3 h4 c k1 k2 k3 k4 c2 t2 Hh Hk).
      destruct (Codec.is_high c && Codec.is_low c2).
      * destruct (IH s2 ltac:(simpl in Hn; lia)) as [x2 Hx2].
        fold t2 in Hx2. rewrite Hx2. by eexists.
      * rewrite Hx. by eexists.
    + rewrite (scanstring_u_second h1 h2 h3 h4 c k1 k2 k3 k4 hi _ Hh Hk).
      assert (Codec.is_low hi = false) as ->.
      { unfold Codec.is_high, Codec.is_low in *.
        apply andb_true_iff in Hhi as [_ H%N.leb_le].
        apply andb_false_iff. left. apply N.leb_gt. lia. }
      rewrite andb_false_r, Hx. by eexists.
  - rewrite (scanstring_u_second h1 h2 h3 h4 hi k1 k2 k3 k4 lo t Hh Hk).
    rewrite Hhi, Hlo. cbn [andb]. rewrite Hx. by eexists.
Qed.

(** Text without surrogates, of code points below [0x110000], is read
    back as it was written. *)
Lemma scanstring_escaped_plain (s rest : str) :
  Forall (λ c, Codec.is_scalar c = true) s →
  scanstring (flat_map escape_char s ++ 34 :: rest) = Some (s, rest).
Proof.
  induction 1 as [|c s Hc _ IH]; [done|].
  unfold Codec.is_scalar in Hc.
  apply andb_true_iff in Hc as [Hmax%N.ltb_lt Hsur%negb_true_iff].
  cbn [flat_map]. rewrite <- app_assoc.
  set (t := flat_map escape_char s ++ 34 :: rest) in *.
  destruct (escape_shape c)
    as [(e & -> & He & Hb)
       |[(-> & H32 & H34 & H92)
        |[(h1 & h2 & h3 & h4 & -> & Hh)
         |(h1 & h2 & h3 & h4 & k1 & k2 & k3 & k4 & hi & lo
           & -> & Hh & Hk & Hhi & Hlo & _ & Hc)]]]; cbn [app].
  - by rewrite (scanstring_backslash e c t He Hb), IH.
  - by rewrite (scanstring_plain c t H32 H34 H92), IH.
  - rewrite (scanstring_u_first h1 h2 h3 h4 c t Hh), IH; [done|].
    left. unfold Codec.is_high, Codec.is_surrogate in *.
    apply andb_false_iff in Hsur as [H|H]; apply andb_false_iff.
    + by left.
    + right. apply N.leb_gt in H. apply N.leb_gt. lia.
  - rewrite (scanstring_u_second h1 h2 h3 h4 hi k1 k2 k3 k4 lo t Hh Hk).
    rewrite Hhi, Hlo. cbn [andb]. rewrite IH. cbn [mbind option_bind].
    by rewrite (Hc Hmax).
Qed.

(** *** Values *)

(** Induction on a value, with the property at hand for the items of
    a list and of a dict. *)
Lemma value_ind' (P : value → Prop) :
  P VNone → (∀ x, P (VBool x)) → (∀ z, P (VInt z)) →
  (∀ literal, P (VFloat literal)) → (∀ s, P (VStr s)) →
  (∀ items, Forall P items → P (VList items)) →
  (∀ items, Forall (λ kv, P kv.2) items → P (VDict items)) →
  ∀ v, P v.
Proof.
  intros HN HB HI HF HS HL HD. fix IH 1. intros [| | | | |items|items].
  - exact HN.
  - apply HB.
  - apply HI.
  - apply HF.
  - apply HS.
  - apply HL. induction items as [|v items IHl]; constructor; [apply IH | exact IHl].
  - apply HD. induction items as [|[k v] items IHl]; constructor;
      [apply IH | exact IHl].
Qed.

Section Encoder.
Variable floatstr : str → str.
Hypothesis floatstr_token : ∀ literal, float_token (floatstr literal).

Local Abbreviation enc := (iterencode floatstr).
Local Abbreviation reads := (reads floatstr).

(** The scanner reads a float token up to a delimiter. *)
Lemma float_token_scan (t rest : str) (fuel : nat) :
  float_token t → delimited rest →
  ∃ v', scan_once (S fuel) (t ++ rest) = Returns (v', rest).
Proof.
  intros [(i & f & e & Hm)|[->|[->| ->]]] Hd.
  - pose proof (match_number_app _ _ _ _ _ rest Hm Hd) as Hm'.
    eexists. exact (scan_once_number fuel _ _ _ _ _ Hm').
  - by eexists.
  - by eexists.
  - by eexists.
Qed.

Lemma float_token_head (t : str) :
  float_token t →
  ∃ c t', t = c :: t' ∧ is_ws c = false ∧ c ≠ 93.
Proof.
  intros [(i & f & e & Hm)|[->|[->| ->]]].
  - destruct (match_number_head _ _ _ _ _ Hm) as (c & t' & -> & Hc).
    exists c, t'. split; [done|].
    destruct Hc as [->|Hc%is_digit_range]; [done|].
    unfold is_ws. split; [|lia].
    repeat (apply orb_false_iff; split); apply N.eqb_neq; lia.
  - by eexists _, _.
  - by eexists _, _.
  - by eexists _, _.
Qed.

(** The text of a value starts with neither whitespace nor a closing
    bracket. *)
Lemma enc_head (v : value) :
  ∃ c t, enc v = c :: t ∧ is_ws c = false ∧ c ≠ 93.
Proof.
  destruct v as [|[|]|z|literal|s|items|items]; try (by eexists _, _).
  - pose proof (match_number_int z) as Hm.
    destruct (match_number_head _ _ _ _ _ Hm) as (c & t' & Heq & Hc).
    exists c, t'. split; [done|].
    destruct Hc as [->|Hc%is_digit_range]; [done|].
    unfold is_ws. split; [|lia].
    repeat (apply orb_false_iff; split); apply N.eqb_neq; lia.
  - apply float_token_head, floatstr_token.
Qed.

Lemma skip_ws_enc (v : value) (rest : str) :
  skip_ws (enc v ++ rest) = enc v ++ rest.
Proof.
  destruct (enc_head v) as (c & t & -> & Hws & _). simpl. by rewrite Hws.
Qed.

Lemma reads_atoms :
  reads VNone ∧ (∀ x, reads (VBool x)) ∧ (∀ z, reads (VInt z))
  ∧ (∀ literal, reads (VFloat literal)) ∧ (∀ s, reads (VStr s)).
Proof.
  split_and!.
  - intros rest [|fuel] _ Hf; [lia|]. by eexists.
  - intros [|] rest [|fuel] _ Hf; try lia; by eexists.
  - intros z rest [|fuel] Hd Hf; [lia|].
    pose proof (match_number_app _ _ _ _ _ rest (match_number_int z) Hd) as Hm.
    eexists. exact (scan_once_number fuel _ _ _ _ _ Hm).
  - intros literal rest [|fuel] Hd Hf; [lia|].
    apply (float_token_scan (floatstr literal)); [apply floatstr_token | done].
  - intros s rest [|fuel] _ Hf; [lia|]. cbn [iterencode]. unfold encode_string.
    cbn [app scan_once]. cbn [N.eqb Pos.eqb]. rewrite <- app_assoc. cbn [app].
    destruct (scanstring_escaped (length s) s rest (le_n _)) as [x ->].
    by eexists.
Qed.

Lemma join_cons2 (p q : str) (parts : list str) :
  join (p :: q :: parts) = p ++ [44; 32] ++ join (q :: parts).
Proof. reflexivity. Qed.

Lemma skip_ws_join (v : value) (items : list value) (rest : str) :
  skip_ws (join (map enc (v :: items)) ++ rest)
  = join (map enc (v :: items)) ++ rest.
Proof.
  destruct items as [|v1 items].
  - apply skip_ws_enc.
  - rewrite map_cons, (map_cons _ v1), join_cons2, <- app_assoc.
    apply skip_ws_enc.
Qed.

(** The loop of [JSONArray] on the texts of values the scanner reads,
    up to the closing bracket. *)
Lemma array_loop_reads (items : list value) :
  Forall reads items → items ≠ [] →
  ∀ (values : list value) (rest : str) (fuel : nat),
    (2 * length (join (map enc items) ++ 93%N :: rest) + 1 < fuel)%nat →
    ∃ vs', array_loop fuel values (join (map enc items) ++ 93 :: rest)
           = Returns (VList (values ++ vs'), rest).
Proof.
  induction 1 as [|v0 items Hv0 Hitems IH]; [done|].
  intros _ values rest [|fuel] Hf; [lia|].
  destruct items as [|v1 items].
  - cbn [map join] in *. cbn [array_loop].
    destruct (Hv0 (93 :: rest) fuel) as [v' ->]; [by right; left | lia |].
    cbn. by exists [v'].
  - rewrite map_cons, (map_cons _ v1), join_cons2 in *.
    rewrite <- (map_cons enc v1) in *. rewrite <- !app_assoc in *.
    cbn [app] in *.
    set (next := join (map enc (v1 :: items)) ++ 93 :: rest) in *.
    cbn [array_loop].
    destruct (Hv0 (44 :: 32 :: next) fuel) as [v' ->]; [by left | lia |].
    cbn -[next array_loop].
    assert (skip_ws next = next) as -> by apply skip_ws_join.
    rewrite !length_app in Hf. cbn [length] in Hf.
    destruct (IH ltac:(done) (values ++ [v']) rest fuel) as [vs' Hvs].
    { fold next. lia. }
    fold next in Hvs. rewrite Hvs.
    exists (v' :: vs'). by rewrite <- app_assoc.
Qed.

(** The text of an entry of an object. *)
Local Abbreviation entry :=
  (λ kv : str * value, encode_string kv.1 ++ [58; 32] ++ enc kv.2).

Lemma entries_head (kv : str * value) (items : list (str * value)) (rest : str) :
  join (map entry (kv :: items)) ++ rest
  = 34 :: tail (join (map entry (kv :: items)) ++ rest).
Proof.
  destruct items as [|kv1 items].
  - reflexivity.
  - by rewrite map_cons, (map_cons _ kv1), join_cons2.
Qed.

(** The loop of [JSONObject] on the texts of entries whose values the
    scanner reads, up to the closing brace: the keys are what
    [scanstring] makes of the texts of the keys. *)
Lemma object_loop_reads (items : list (str * value)) :
  Forall (λ kv, reads kv.2) items → items ≠ [] →
  ∀ (pairs : list (str * value)) (rest : str) (fuel : nat),
    (2 * length (join (map entry items) ++ 125%N :: rest) + 1 < fuel)%nat →
    ∃ items',
      Forall2 (λ kv kv',
                 ∃ after, scanstring (flat_map escape_char kv.1 ++ 34 :: after)
                          = Some (kv'.1, after)) items items'
      ∧ object_loop fuel pairs (tail (join (map entry items) ++ 125 :: rest))
        = Returns (VDict (dict_of_pairs (pairs ++ items')), rest).
Proof.
  induction 1 as [|[k0 v0] items Hv0 Hitems IH]; [done|].
  intros _ pairs rest [|fuel] Hf; [lia|]. cbn [fst snd] in Hv0.
  assert (∃ after,
            join (map entry ((k0, v0) :: items)) ++ 125 :: rest
            = 34 :: flat_map escape_char k0 ++ 34 :: 58 :: 32 :: enc v0 ++ after
            ∧ (items = [] ∧ after = 125 :: rest
               ∨ ∃ kv1 items1, items = kv1 :: items1
                   ∧ after = 44 :: 32 :: join (map entry items) ++ 125 :: rest))
    as (after & Htext & Hafter).
  { destruct items as [|kv1 items1].
    - exists (125 :: rest). split; [|by left].
      cbn [map join fst snd]. unfold encode_string.
      repeat (rewrite <- app_comm_cons || rewrite <- app_assoc). done.
    - eexists. split; [|right; by eexists _, _].
      rewrite map_cons, (map_cons _ kv1), join_cons2.
      rewrite <- (map_cons entry kv1). cbn [fst snd]. unfold encode_string.
      repeat (rewrite <- app_comm_cons || rewrite <- app_assoc). done. }
  rewrite Htext in *. cbn [tail]. cbn [length] in Hf. rewrite !length_app in Hf.
  cbn [length] in Hf. rewrite !length_app in Hf.
  cbn [object_loop].
  destruct (scanstring_escaped (length k0) k0 (58 :: 32 :: enc v0 ++ after) (le_n _))
    as [key Hkey].
  rewrite Hkey. cbn -[scan_once object_loop dict_of_pairs encode_string join map].
  rewrite skip_ws_enc.
  assert (delimited after) as Hd.
  { destruct Hafter as [[_ ->]|(kv1 & items1 & _ & ->)]; [by right; right | by left]. }
  destruct (Hv0 after fuel Hd) as [v' ->]; [rewrite length_app; lia|].
  cbn -[object_loop dict_of_pairs encode_string join map].
  destruct Hafter as [[-> ->]|(kv1 & items1 & -> & ->)].
  - cbn -[dict_of_pairs]. exists [(key, v')]. split; [|done].
    constructor; [|constructor]. by eexists.
  - cbn -[object_loop dict_of_pairs encode_string join map].
    change (join (map _ (kv1 :: items1)) ++ 125 :: rest)
      with (join (map entry (kv1 :: items1)) ++ 125 :: rest).
    rewrite (entries_head kv1 items1 (125 :: rest)).
    cbn -[object_loop dict_of_pairs encode_string join map].
    change (join (map _ (kv1 :: items1)) ++ 125 :: rest)
      with (join (map entry (kv1 :: items1)) ++ 125 :: rest).
    destruct (IH ltac:(done) (pairs ++ [(key, v')]) rest fuel) as (items' & HF & ->).
    { rewrite (entries_head kv1 items1 (125 :: rest)) in Hf.
      rewrite (entries_head kv1 items1 (125 :: rest)). cbn [length] in *. lia. }
    exists ((key, v') :: items'). split; [|by rewrite <- app_assoc].
    constructor; [by eexists | done].
Qed.

(** The scanner reads back what the encoder writes, whatever the
    value. *)
Lemma reads_all (v : value) : reads v.
Proof.
  destruct reads_atoms as (HN & HB & HI & HF & HS).
  induction v as [| | | | |items IH|items IH] using value_ind'; try done.
  - (* a list *)
    intros rest [|fuel] _ Hf; [lia|]. cbn [iterencode] in *.
    rewrite <- app_comm_cons, <- app_assoc in *. cbn [length app] in *.
    cbn [scan_once]. cbn [N.eqb Pos.eqb].
    destruct items as [|v0 items]; [by eexists|].
    rewrite skip_ws_join.
    destruct (array_loop_reads (v0 :: items) IH ltac:(done) [] rest fuel)
      as [vs' Hvs]; [cbn [app]; lia|].
    cbn [app] in Hvs.
    destruct (enc_head v0) as (c & t & Hc & _ & H93).
    assert (∃ t', join (map enc (v0 :: items)) ++ 93 :: rest = c :: t')
      as [t' Ht'].
    { destruct items as [|v1 items].
      - cbn [map join]. rewrite Hc. by eexists.
      - rewrite map_cons, (map_cons _ v1), join_cons2, Hc. by eexists. }
    rewrite Ht' in *. apply N.eqb_neq in H93. rewrite H93, Hvs. by eexists.
  - (* an object *)
    intros rest [|fuel] _ Hf; [lia|]. cbn [iterencode] in *.
    rewrite <- app_comm_cons, <- app_assoc in *. cbn [length app] in *.
    cbn [scan_once]. cbn [N.eqb Pos.eqb].
    destruct items as [|kv items]; [by eexists|].
    destruct (object_loop_reads (kv :: items) IH ltac:(done) [] rest fuel)
      as (items' & _ & Hloop); [cbn [app]; lia|].
    change (join (map _ (kv :: items)) ++ 125 :: rest)
      with (join (map entry (kv :: items)) ++ 125 :: rest).
    rewrite (entries_head kv items (125 :: rest)).
    cbn -[object_loop join map encode_string].
    change (join (map _ (kv :: items)) ++ 125 :: rest)
      with (join (map entry (kv :: items)) ++ 125 :: rest).
    rewrite Hloop. by eexists.
Qed.

(** The text of an object, decoded: an object again, whose keys are
    what [scanstring] makes of the texts of the keys written. *)
Lemma decode_encoded_object (items : list (str * value)) :
  ∃ items',
    Forall2 (λ kv kv',
               ∃ after, scanstring (flat_map escape_char kv.1 ++ 34 :: after)
                        = Some (kv'.1, after)) items items'
    ∧ decode (enc (VDict items)) = Returns (VDict (dict_of_pairs items')).
Proof.
  unfold decode. cbn [iterencode]. cbn [skip_ws is_ws N.eqb Pos.eqb orb].
  cbn [scan_once]. cbn [N.eqb Pos.eqb].
  destruct items as [|kv items]; [by exists []|].
  destruct (object_loop_reads (kv :: items)
              ltac:(apply Forall_forall; intros; apply reads_all)
              ltac:(done) [] []
              (2 * length (123 :: join (map entry (kv :: items)) ++ [125])))
    as (items' & HF & Hloop).
  { cbn [length]. lia. }
  exists items'. split; [done|].
  change (join (map _ (kv :: items)) ++ [125])
    with (join (map entry (kv :: items)) ++ [125]).
  rewrite (entries_head kv items [125]).
  cbn -[object_loop join map encode_string Nat.mul length].
  change (join (map _ (kv :: items)) ++ [125])
    with (join (map entry (kv :: items)) ++ [125]).
  rewrite <- entries_head. rewrite Hloop. done.
Qed.
End Encoder.
End JsonReadBack.

(** ** Trimming *)

Section StripFacts.
Implicit Types (s ws core : str).

Lemma lstrip_spaces ws s :
  Forall (λ c, isspace c = true) ws → lstrip (ws ++ s) = lstrip s.
Proof. induction 1 as [|c ws Hc _ IH]; simpl; [done|]. by rewrite Hc. Qed.

Lemma lstrip_head s :
  (∀ a, head s = Some a → isspace a = false) → lstrip s = s.
Proof.
  destruct s as [|a s]; simpl; [done|]. intros H. by rewrite (H a eq_refl).
Qed.

Lemma head_rev s : head (rev s) = last s.
Proof.
  induction s as [|z s _] using rev_ind; [done|].
  by rewrite rev_app_distr, last_snoc.
Qed.

(** [strip] removes the whitespace around a text that neither starts
    nor ends with whitespace, and nothing else. *)
Lemma strip_around ws1 core ws2 :
  Forall (λ c, isspace c = true) ws1 →
  Forall (λ c, isspace c = true) ws2 →
  (∀ a, head core = Some a → isspace a = false) →
  (∀ z, last core = Some z → isspace z = false) →
  strip (ws1 ++ core ++ ws2) = core.
Proof.
  intros H1 H2 Hh Hl. unfold strip, rstrip.
  rewrite (lstrip_spaces _ _ H1).
  destruct core as [|a m].
  - simpl. rewrite <- (app_nil_r ws2), (lstrip_spaces _ _ H2). done.
  - rewrite (lstrip_head ((a :: m) ++ ws2)) by (simpl; intros ? [= <-]; by apply Hh).
    rewrite rev_app_distr, (lstrip_spaces _ _ (List.Forall_rev H2)).
    rewrite lstrip_head; [apply rev_involutive|].
    intros z Hz. apply Hl. by rewrite <- head_rev.
Qed.
End StripFacts.

(** ** A single outbound call *)

Section SendRequestExtras.
Implicit Types (srv : Upstream) (srvs : list Upstream) (method : str)
  (hdrs : Headers) (data : option bytes) (w : world).

(** When the session answers and the body is read, [send_request]
    returns the body, the status and the headers of the answer under
    the name of the upstream, and does three things, in this order: it
    logs "requesting", hands one call to the session, for the URL of
    the upstream with the method and the body given and with [Host]
    set to the authority of the upstream, and logs "done" with the
    length of the body and the status. Both records carry the current
    transaction id, which it leaves as it is. *)
Theorem send_request_success srv method hdrs data w resp payload :
  session srv method (url srv) (<[u "Host" := host_port srv]> hdrs) data
  = Returns resp →
  resp_read resp = Returns payload →
  ∃ call,
    send_request srv method hdrs data w
    = (Returns (mkApiResponse payload (resp_status resp) (resp_headers resp)
                  (name srv)),
       mkWorld (TX w)
         (trace w
          ++ [Log INFO "requesting"
                [("url"%string, SStr (url srv)); ("method"%string, SStr method);
                 ("tx"%string, TX w)];
              call;
              Log INFO "done"
                [("url"%string, SStr (url srv)); ("method"%string, SStr method);
                 ("bytes"%string, SInt (Z.of_nat (length payload)));
                 ("srv_name"%string, SStr (name srv));
                 ("code"%string, SInt (resp_status resp)); ("tx"%string, TX w)]])
         (minted w))
    ∧ call_target call = Some (name srv, method, url srv, data)
    ∧ call_header (u "Host") call = Some (host_port srv).
Proof.
  intros Hs Hr.
  exists (Call (name srv) method (url srv) (<[u "Host" := host_port srv]> hdrs)
            data).
  split; [|split; [done | apply lookup_insert_eq]].
  unfold send_request, bind, try_M, session_request, lift, ret,
    logger_info, logger_error, emit, TX_get. simpl.
  rewrite Hs. simpl. rewrite Hr. simpl. by rewrite <- !app_assoc.
Qed.

Theorem send_request_raises srv method hdrs data w e :
  (send_request srv method hdrs data w).1 = Raises e
  ↔ (session srv method (url srv) (<[u "Host" := host_port srv]> hdrs) data
     = Raises e ∧ is_ClientConnectorError e = false)
    ∨ (∃ resp,
         session srv method (url srv) (<[u "Host" := host_port srv]> hdrs) data
         = Returns resp
         ∧ resp_read resp = Raises e ∧ is_IOError e = false).
Proof.
  rewrite send_request_reply. unfold reply_of.
  destruct (session srv method (url srv) _ data) as [resp|e0].
  - destruct (resp_read resp) as [payload|e1] eqn:Hread.
    + split; [done|]. intros [[? _]|(resp' & [= <-] & ? & _)]; congruence.
    + destruct (is_IOError e1) eqn:Hio.
      * split; [done|]. intros [[? _]|(resp' & [= <-] & ? & ?)]; congruence.
      * split.
        -- intros [= ->]. right. by exists resp.
        -- intros [[? _]|(resp' & [= <-] & ? & ?)]; congruence.
  - destruct (is_ClientConnectorError e0) eqn:Hc.
    + split; [done|]. intros [[[= ->] ?]|(resp' & ? & _)]; congruence.
    + split.
      * intros [= ->]. by left.
      * intros [[[= ->] ?]|(resp' & ? & _)]; congruence.
Qed.
End SendRequestExtras.

(** ** Traces *)

Section TraceExtras.
Implicit Types (srv : Upstream) (srvs : list Upstream) (method : str)
  (hdrs : Headers) (data : option bytes) (w : world).

Lemma send_request_trace srv method hdrs data w :
  ∃ evs,
    trace (send_request srv method hdrs data w).2 = trace w ++ evs
    ∧ logs_carry (TX w) evs
    ∧ calls evs
      = [Call (name srv) method (url srv) (<[u "Host" := host_port srv]> hdrs) data]
    ∧ TX (send_request srv method hdrs data w).2 = TX w
    ∧ minted (send_request srv method hdrs data w).2 = minted w.
Proof.
  unfold send_request, bind, try_M, session_request, lift, ret,
    logger_info, logger_error, emit, TX_get, logs_carry. simpl.
  destruct (session srv method (url srv) _ data) as [resp|e]; simpl.
  - destruct (resp_read resp) as [payload|e]; simpl.
    + eexists. rewrite <- !app_assoc. split; [reflexivity|].
      split_and!; [|done..]. repeat constructor; done.
    + destruct (is_IOError e); simpl; eexists; rewrite <- ?app_assoc;
        (split; [reflexivity|]); (split_and!; [|done..]); repeat constructor; done.
  - destruct (is_ClientConnectorError e); simpl; eexists; rewrite <- ?app_assoc;
      (split; [reflexivity|]); (split_and!; [|done..]); repeat constructor; done.
Qed.

Lemma calls_app (t1 t2 : list event) : calls (t1 ++ t2) = calls t1 ++ calls t2.
Proof. apply List.filter_app. Qed.

Lemma run_tasks_trace srvs method hdrs data w :
  ∃ evs,
    trace (run_tasks (map (λ srv, send_request srv method hdrs data) srvs) w).2
    = trace w ++ evs
    ∧ logs_carry (TX w) evs
    ∧ calls evs
      = (λ srv, Call (name srv) method (url srv)
                  (<[u "Host" := host_port srv]> hdrs) data) <$> srvs
    ∧ TX (run_tasks (map (λ srv, send_request srv method hdrs data) srvs) w).2 = TX w
    ∧ minted (run_tasks (map (λ srv, send_request srv method hdrs data) srvs) w).2
      = minted w.
Proof.
  revert w. induction srvs as [|srv srvs IH]; intros w; simpl.
  - exists []. rewrite app_nil_r. split_and!; try done. constructor.
  - unfold in_task.
    destruct (send_request_trace srv method hdrs data w)
      as (evs1 & Ht1 & Hl1 & Hc1 & Htx1 & Hm1).
    destruct (send_request srv method hdrs data w) as [r w1]. simpl in *.
    destruct (IH (mkWorld (TX w) (trace w1) (minted w1)))
      as (evs2 & Ht2 & Hl2 & Hc2 & Htx2 & Hm2).
    destruct (run_tasks _ _) as [rs w2]. simpl in *.
    exists (evs1 ++ evs2). split_and!.
    + by rewrite Ht2, Ht1, app_assoc.
    + by apply Forall_app.
    + by rewrite calls_app, Hc1, Hc2.
    + done.
    + by rewrite Hm2.
Qed.

Theorem dispatch_trace srvs method hdrs data w :
  ∃ evs,
    trace (dispatch srvs method hdrs data w).2 = trace w ++ evs
    ∧ logs_carry (TX w) evs
    ∧ calls evs
      = (λ srv, Call (name srv) method (url srv)
                  (<[u "Host" := host_port srv]> hdrs) data) <$> srvs
    ∧ TX (dispatch srvs method hdrs data w).2 = TX w
    ∧ minted (dispatch srvs method hdrs data w).2 = minted w.
Proof.
  unfold dispatch, gather.
  pose proof (run_tasks_trace srvs method hdrs data w) as H.
  destruct (run_tasks _ _) as [rs w']. exact H.
Qed.
End TraceExtras.

(** ** The fan-out *)

Section DispatchExtras.
Implicit Types (srv : Upstream) (srvs : list Upstream) (method : str)
  (hdrs : Headers) (data : option bytes) (w : world).

(** The fan-out hands one call to each upstream, in the order of the
    list and whatever the calls come to, also when it raises: each for
    the URL of that upstream, with the method and the body given. It
    leaves the transaction id as it is and its log records carry it. *)
Theorem dispatch_calls srvs method hdrs data w :
  ∃ evs,
    trace (dispatch srvs method hdrs data w).2 = trace w ++ evs
    ∧ call_target <$> calls evs
      = (λ srv, Some (name srv, method, url srv, data)) <$> srvs
    ∧ logs_carry (TX w) evs
    ∧ TX (dispatch srvs method hdrs data w).2 = TX w.
Proof.
  destruct (dispatch_trace srvs method hdrs data w)
    as (evs & Ht & Hl & Hc & Htx & _).
  exists evs. split_and!; try done.
  rewrite Hc, <- list_fmap_compose. by apply list_fmap_ext.
Qed.

Lemma collect_raises {A : Type} (rs : list (outcome A)) (e : exn) :
  collect rs = Raises e
  ↔ ∃ before after,
      rs = before ++ Raises e :: after
      ∧ Forall (λ r, ∃ a, r = Returns a) before.
Proof.
  induction rs as [|r rs IH]; simpl.
  - split; [done|]. intros (before & after & Heq & _). by destruct before.
  - destruct r as [a|e0]; simpl.
    + destruct (collect rs) as [l|e1] eqn:Hc; simpl.
      * split; [done|]. intros (before & after & Heq & Hall).
        destruct before as [|r0 before]; [done|]. injection Heq as <- ->.
        apply Forall_cons in Hall as [_ Hall].
        assert (Returns l = @Raises (list A) e) as Habs; [|done].
        apply IH. by exists before, after.
      * split.
        -- intros [= ->]. destruct (proj1 IH eq_refl) as (before & after & -> & Hall).
           exists (Returns a :: before), after. split; [done|].
           constructor; [by exists a | done].
        -- intros (before & after & Heq & Hall).
           destruct before as [|r0 before]; [done|]. injection Heq as <- ->.
           apply Forall_cons in Hall as [_ Hall]. f_equal.
           assert (@Raises (list A) e1 = Raises e) as [= ->]; [|done].
           apply IH. by exists before, after.
    + split.
      * intros [= ->]. exists [], rs. split; [done | constructor].
      * intros (before & after & Heq & Hall).
        destruct before as [|r0 before]; [by injection Heq as -> |].
        injection Heq as <- ->. apply Forall_cons in Hall as [[a ?] _]. done.
Qed.

(** As [collect] goes through the results in the order of the tasks,
    so does the exception of the fan-out follow the order of the
    upstreams. *)
Lemma dispatch_raises_first srvs method hdrs data w e :
  (dispatch srvs method hdrs data w).1 = Raises e
  ↔ ∃ before srv after,
      srvs = before ++ srv :: after
      ∧ (send_request srv method hdrs data w).1 = Raises e
      ∧ ∀ srv', srv' ∈ before →
          ∃ r, (send_request srv' method hdrs data w).1 = Returns r.
Proof.
  rewrite dispatch_replies, collect_raises. split.
  - intros (before & after & Heq & Hall).
    apply fmap_app_inv in Heq as (sb & rest & Hb & Hrest & ->).
    symmetry in Hrest. apply fmap_cons_inv in Hrest as (srv & sa & He & -> & ->).
    exists sb, srv, sa. split_and!; [done | by rewrite send_request_reply |].
    intros srv' Hin. rewrite send_request_reply. subst before.
    rewrite Forall_fmap, Forall_forall in Hall. by apply Hall.
  - intros (before & srv & after & -> & He & Hall).
    exists ((λ srv, reply_of srv method hdrs data) <$> before),
           ((λ srv, reply_of srv method hdrs data) <$> after).
    rewrite fmap_app, fmap_cons, <- (send_request_reply srv method hdrs data w), He.
    split; [done|]. rewrite Forall_fmap, Forall_forall. intros srv' Hin. simpl.
    rewrite <- (send_request_reply srv' method hdrs data w). by apply Hall.
Qed.

(** The fan-out raises exactly when some call raises an exception that
    [send_request] does not catch, and what it raises is the exception
    of such a call: one upstream failing that way fails the whole
    fan-out, whatever the others reply. *)
Theorem dispatch_raises srvs method hdrs data w :
  (∀ e, (dispatch srvs method hdrs data w).1 = Raises e →
        ∃ srv, srv ∈ srvs ∧ (send_request srv method hdrs data w).1 = Raises e)
  ∧ (∀ srv e, srv ∈ srvs →
              (send_request srv method hdrs data w).1 = Raises e →
              ∃ e', (dispatch srvs method hdrs data w).1 = Raises e').
Proof.
  split.
  - intros e (before & srv & after & -> & He & _)%dispatch_raises_first.
    exists srv. split; [|done]. apply elem_of_app. right. apply list_elem_of_here.
  - intros srv e Hin He.
    destruct (dispatch srvs method hdrs data w).1 as [results|e'] eqn:Hd;
      [|by exists e'].
    rewrite dispatch_replies in Hd. apply collect_Forall2 in Hd.
    apply list_elem_of_lookup in Hin as [i Hi].
    assert (((λ srv, reply_of srv method hdrs data) <$> srvs) !! i
            = Some (reply_of srv method hdrs data)) as Hri
      by (by rewrite list_lookup_fmap, Hi).
    destruct (Forall2_lookup_l _ _ _ _ _ Hd Hri) as (r & _ & Hr).
    rewrite send_request_reply in He. congruence.
Qed.
End DispatchExtras.

(** ** The aggregate *)

Section AggregateExtras.
Variable json_loads : bytes → outcome value.
Variable json_dumps : value → str.

Local Abbreviation transform_all := (transform_all json_loads).
Local Abbreviation reconcile := (reconcile json_loads json_dumps).

(** When [transform] raises: on what [json.loads] raises that is not a
    [ValueError], and on a body on which it raises a [ValueError] and
    which is not UTF-8 text either. *)
Lemma transform_raises (r : ApiResponse) (e : exn) :
  transform json_loads r = Raises e
  ↔ (json_loads (body r) = Raises e ∧ is_ValueError e = false)
    ∨ (e = UnicodeDecodeError
       ∧ (∃ e', json_loads (body r) = Raises e' ∧ is_ValueError e' = true)
       ∧ decode_utf8 (body r) = Raises UnicodeDecodeError).
Proof.
  unfold transform, try_except, decode_utf8, Codec.decode.
  destruct (json_loads (body r)) as [v|e0].
  - split; [done|]. intros [[? _]|(_ & (e' & ? & _) & _)]; done.
  - destruct (is_ValueError e0) eqn:Hv.
    + destruct (Codec.decode_N _ _ _); simpl.
      * split; [done|]. intros [[[= ->] ?]|(_ & _ & ?)]; congruence.
      * split.
        -- intros [= <-]. right. split_and!; [done | by exists e0 | done].
        -- intros [[[= ->] ?]|(-> & _ & _)]; congruence.
    + split.
      * intros [= ->]. by left.
      * intros [[[= ->] _]|(_ & (e' & [= ->] & ?) & _)]; congruence.
Qed.

(** Under a name that no later reply carries, the comprehension holds
    what [transform] made of this reply. *)
Lemma transform_all_last results d payload before r after :
  transform_all results d = Returns payload →
  results = before ++ r :: after →
  rname r ∉ rname <$> after →
  ∃ v, transform json_loads r = Returns v ∧ dict_get (rname r) payload = Some v.
Proof.
  intros Hall ->. revert d Hall.
  induction before as [|r' before IH]; intros d; simpl.
  - destruct (transform json_loads r) as [v|e] eqn:Ht; simpl; [|done].
    intros Hall Hk. exists v. split; [done|].
    rewrite (transform_all_frame json_loads _ _ _ _ Hall Hk).
    apply dict_get_set_eq.
  - destruct (transform json_loads r') as [v'|e]; simpl; [|done].
    intros Hall Hk. by apply (IH _ Hall).
Qed.

Lemma dict_set_fresh {V : Type} (k : str) (v : V) (d : list (str * V)) :
  k ∉ dict_keys d → dict_set k v d = d ++ [(k, v)].
Proof.
  unfold dict_keys. induction d as [|[k0 v0] d IH]; csimpl; [done|].
  intros [Hne Hk]%not_elem_of_cons.
  case_decide; [by subst|]. by rewrite IH.
Qed.

(** With names that are new and pairwise distinct, the comprehension
    appends one entry per reply, in the order of the replies. *)
Lemma transform_all_ordered results d payload :
  transform_all results d = Returns payload →
  NoDup (dict_keys d ++ (rname <$> results)) →
  ∃ entries,
    payload = d ++ entries
    ∧ Forall2 (λ r kv, kv.1 = rname r ∧ transform json_loads r = Returns kv.2)
        results entries.
Proof.
  revert d. induction results as [|r rest IH]; intros d; simpl.
  - intros [= <-] _. exists []. by rewrite app_nil_r.
  - destruct (transform json_loads r) as [v|e] eqn:Ht; simpl; [|done].
    rewrite ?fmap_cons. intros Hall Hnd.
    rewrite dict_set_fresh in Hall.
    2: { apply NoDup_app in Hnd as (_ & Hd & _). intros Hin.
         apply (Hd _ Hin), list_elem_of_here. }
    destruct (IH _ Hall) as (entries & -> & HF).
    { unfold dict_keys in *. by rewrite fmap_app, <- app_assoc. }
    exists ((rname r, v) :: entries). rewrite <- app_assoc. split; [done|].
    by constructor.
Qed.

(** The comprehension raises what [transform] raises on the first
    reply on which it raises. *)
Lemma transform_all_raises_first results d e :
  transform_all results d = Raises e
  ↔ ∃ before r after,
      results = before ++ r :: after
      ∧ transform json_loads r = Raises e
      ∧ ∀ r', r' ∈ before → ∃ v, transform json_loads r' = Returns v.
Proof.
  revert d. induction results as [|r rest IH]; intros d; simpl.
  - split; [done|]. intros (before & r & after & Heq & _). by destruct before.
  - destruct (transform json_loads r) as [v|e0] eqn:Ht; simpl.
    + rewrite IH. split.
      * intros (before & r' & after & -> & Hr' & Hall).
        exists (r :: before), r', after. split_and!; [done..|].
        intros r0 [->|Hin]%elem_of_cons; [by exists v | by apply Hall].
      * intros (before & r' & after & Heq & Hr' & Hall).
        destruct before as [|r0 before]; simpl in Heq.
        { injection Heq as <- _. congruence. }
        injection Heq as <- ->. exists before, r', after. split_and!; [done..|].
        intros r1 Hin. apply Hall. by apply elem_of_cons; right.
    + split.
      * intros [= ->]. exists [], r, rest. split_and!; [done..|].
        intros r' Hin. by apply elem_of_nil in Hin.
      * intros (before & r' & after & Heq & Hr' & Hall).
        destruct before as [|r0 before]; simpl in Heq.
        { injection Heq as <- _. congruence. }
        injection Heq as <- _.
        destruct (Hall r (list_elem_of_here _ _)) as [v ?]. congruence.
Qed.

Lemma dict_set_keys {V : Type} (k : str) (v : V) (d : list (str * V)) :
  dict_keys (dict_set k v d)
  = if decide (k ∈ dict_keys d) then dict_keys d else dict_keys d ++ [k].
Proof.
  unfold dict_keys. induction d as [|[k0 v0] d IH].
  - destruct (decide (k ∈ ([] : list (str * V)).*1)) as [Hin|_]; [|done].
    by apply elem_of_nil in Hin.
  - cbn [dict_set]. destruct (decide (k0 = k)) as [->|Hk].
    + rewrite decide_True by (rewrite fmap_cons; apply list_elem_of_here).
      by rewrite !fmap_cons.
    + rewrite !fmap_cons, IH. cbn [fst].
      destruct (decide (k ∈ d.*1)) as [Hin|Hin].
      * rewrite decide_True by (by apply elem_of_cons; right). done.
      * rewrite decide_False; [done|].
        intros [->|?]%elem_of_cons; done.
Qed.

(** The keys of a dict built entry after entry: every name at the
    place of its first occurrence. *)
Lemma first_occurrences (names : list str) :
  fold_left (λ ks k, if decide (k ∈ ks) then ks else ks ++ [k]) names []
  = reverse (remove_dups (reverse names)).
Proof.
  assert (∀ (k : str) (l acc : list str),
            k ∈ fold_left (λ ks k, if decide (k ∈ ks) then ks else ks ++ [k])
                  l acc
            ↔ k ∈ acc ∨ k ∈ l) as Hin.
  { intros k l. induction l as [|x l IH]; intros acc; simpl.
    - rewrite elem_of_nil. tauto.
    - rewrite IH, elem_of_cons. case_decide as Hx.
      + split; [tauto|]. intros [?|[->|?]]; tauto.
      + rewrite elem_of_app, list_elem_of_singleton. tauto. }
  induction names as [|x names IH] using rev_ind; [done|].
  rewrite fold_left_app, reverse_snoc. simpl. rewrite IH.
  destruct (decide_rel elem_of x (reverse names)) as [Hx|Hx].
  - rewrite decide_True; [done|].
    rewrite <- IH. apply Hin. right. by apply elem_of_reverse.
  - rewrite decide_False; [by rewrite reverse_cons|].
    rewrite <- IH. intros [Habs|Habs]%Hin; [by apply elem_of_nil in Habs|].
    apply Hx. by apply elem_of_reverse.
Qed.

Lemma transform_all_key_order results d payload :
  transform_all results d = Returns payload →
  dict_keys payload
  = fold_left (λ ks k, if decide (k ∈ ks) then ks else ks ++ [k])
      (rname <$> results) (dict_keys d).
Proof.
  revert d. induction results as [|r rest IH]; intros d; simpl.
  - by intros [= <-].
  - destruct (transform json_loads r) as [v|e]; simpl; [|done].
    intros Hall. rewrite ?fmap_cons. simpl.
    by rewrite (IH _ Hall), dict_set_keys.
Qed.

(** Names may repeat among the replies. The object of the aggregate
    then has one entry per name: at the place where the name first
    occurs among the replies, and with what [transform] made of the
    last reply of that name. The order of the keys is
    [reverse (remove_dups (reverse names))], the names without repetition, each
    kept at its first occurrence. *)
Theorem reconcile_last_wins (results : list ApiResponse) (resp : Response) :
  (2 ≤ length results)%nat →
  reconcile results = Returns resp →
  ∃ payload,
    r_body resp = Text (json_dumps (VDict payload))
    ∧ dict_keys payload = reverse (remove_dups (reverse (rname <$> results)))
    ∧ ∀ before r after,
        results = before ++ r :: after →
        rname r ∉ rname <$> after →
        ∃ v, transform json_loads r = Returns v
             ∧ dict_get (rname r) payload = Some v.
Proof.
  intros Hlen Hres.
  destruct (reconcile_many_inv _ _ _ _ Hlen Hres)
    as (r0 & rest & payload & -> & Hall & ->).
  exists payload. split; [done|]. split.
  - rewrite (transform_all_key_order _ _ _ Hall). apply first_occurrences.
  - intros before r after Heq Hk.
    by apply (transform_all_last _ _ _ _ _ _ Hall Heq).
Qed.

(** With pairwise distinct names, the object of the aggregate has one
    entry per reply and in the order of the replies: the name of the
    reply with what [transform] made of its body. *)
Theorem reconcile_ordered (results : list ApiResponse) (resp : Response) :
  (2 ≤ length results)%nat →
  NoDup (rname <$> results) →
  reconcile results = Returns resp →
  ∃ payload,
    r_body resp = Text (json_dumps (VDict payload))
    ∧ Forall2 (λ r kv, kv.1 = rname r ∧ transform json_loads r = Returns kv.2)
        results payload.
Proof.
  intros Hlen Hnd Hres.
  destruct (reconcile_many_inv _ _ _ _ Hlen Hres)
    as (r0 & rest & payload & -> & Hall & ->).
  destruct (transform_all_ordered _ _ _ Hall Hnd) as (entries & -> & HF).
  by exists entries.
Qed.

(** The reconciliation of one reply never raises. That of two replies
    or more raises only through [transform]: on the first reply on
    which [json.loads] raises something that is not a [ValueError],
    that exception; or on which it raises a [ValueError] while the
    body is no UTF-8 text either, a [UnicodeDecodeError]. *)
Theorem reconcile_raises (results : list ApiResponse) (e : exn) :
  results ≠ [] →
  reconcile results = Raises e
  ↔ (2 ≤ length results)%nat
    ∧ ∃ before r after,
        results = before ++ r :: after
        ∧ ((json_loads (body r) = Raises e ∧ is_ValueError e = false)
           ∨ (e = UnicodeDecodeError
              ∧ (∃ e', json_loads (body r) = Raises e'
                       ∧ is_ValueError e' = true)
              ∧ decode_utf8 (body r) = Raises UnicodeDecodeError))
        ∧ ∀ r', r' ∈ before → ∃ v, transform json_loads r' = Returns v.
Proof.
  intros Hne. destruct results as [|r0 [|r1 rest]]; [done| |].
  - split; [done|]. simpl. intros [? _]. lia.
  - rewrite reconcile_many.
    pose proof (transform_all_raises_first (r0 :: r1 :: rest) [] e) as Hfirst.
    destruct (transform_all (r0 :: r1 :: rest) []) as [payload|e0] eqn:Hall;
      cbn [mbind outcome_bind obind].
    + split; [done|]. intros (_ & before & r & after & Heq & Hr & Hb).
      apply transform_raises in Hr.
      assert (Returns payload = @Raises (list (str * value)) e) as Habs; [|done].
      apply Hfirst. by exists before, r, after.
    + split.
      * intros [= ->]. split; [simpl; lia|].
        destruct (proj1 Hfirst eq_refl) as (before & r & after & Heq & Hr & Hb).
        exists before, r, after. split_and!; [done | by apply transform_raises | done].
      * intros (_ & before & r & after & Heq & Hr & Hb).
        apply transform_raises in Hr.
        assert (@Raises (list (str * value)) e0 = Raises e) as [= ->]; [|done].
        apply Hfirst. by exists before, r, after.
Qed.
End AggregateExtras.

(** ** The body of the aggregate, parsed *)

Section AggregateText.
Variable json_loads : bytes → outcome value.
Variable floatstr : str → str.
Hypothesis floatstr_token : ∀ literal, Json.float_token (floatstr literal).

Local Abbreviation reconcile := (reconcile json_loads (Json.iterencode floatstr)).

(** [json.dumps] as modelled writes a float as the literal it was
    read from. *)
Lemma dumps_iterencode (v : value) :
  Json.dumps v = Json.iterencode (λ literal, literal) v.
Proof.
  induction v as [| | | | |items IH|items IH] using value_ind'; try done.
  - cbn [Json.dumps Json.iterencode]. do 3 f_equal.
    induction IH as [|v items Hv _ IHl]; [done|]. cbn [map]. by rewrite Hv, IHl.
  - cbn [Json.dumps Json.iterencode]. do 3 f_equal.
    induction IH as [|[k v] items Hv _ IHl]; [done|]. cbn [map fst snd] in *.
    by rewrite Hv, IHl.
Qed.


End AggregateText.

(** ** The handler *)

Section GatewayExtras.
Variable json_loads : bytes → outcome value.
Variable json_dumps : value → str.
Variable uuid4_hex : nat → str.
Variable routing_table : gmap (list N) (list Upstream).

Local Abbreviation handle := (gateway json_loads json_dumps uuid4_hex routing_table).
Local Abbreviation reconcile := (reconcile json_loads json_dumps).

(** The body forwarded to the upstreams. *)
Local Abbreviation forwarded request :=
  (if body_exists request then Some (req_body request) else None).

(** The handler, step by step. *)
Lemma gateway_unfold (request : Request) (w : world) :
  let key := strip (match_info_service request) in
  let id := SStr (uuid4_hex (minted w)) in
  let w1 :=
    mkWorld id
      (trace w ++ [Log INFO "request" [("upstream"%string, SStr key);
                                       ("tx"%string, id)]])
      (S (minted w)) in
  handle request w
  = if no_routes (routing_table !! key) then
      (Returns (mkResponse (Text marker_A) 502 ∅),
       mkWorld id
         (trace w1 ++ [Log ERROR "no routes to upstream"
                         [("upstream"%string, SStr key); ("tx"%string, id)]])
         (S (minted w)))
    else
      match dispatch (default [] (routing_table !! key)) (method request)
              (req_headers request) (forwarded request) w1 with
      | (Returns results, w2) => (reconcile results, w2)
      | (Raises e, w2) => (Raises e, w2)
      end.
Proof.
  unfold gateway, bind, uuid4, TX_set, TX_get, logger_info, logger_error, emit,
    ret, lift.
  cbv beta iota zeta. destruct (no_routes _); [reflexivity|].
  cbv beta iota zeta. simpl. by destruct (dispatch _ _ _ _ _) as [[results|e] w2].
Qed.

(** On a route with upstreams, the handler gathers the replies of the
    calls and reconciles them. *)
Lemma gateway_collect (request : Request) (w : world) (srvs : list Upstream) :
  routing_table !! strip (match_info_service request) = Some srvs →
  srvs ≠ [] →
  (handle request w).1
  = results ← collect ((λ srv, (send_request srv (method request)
                                  (req_headers request) (forwarded request) w).1)
                       <$> srvs);
    reconcile results.
Proof.
  intros Hroute Hne. rewrite gateway_unfold. cbv zeta. rewrite Hroute.
  destruct srvs as [|srv srvs]; [done|].
  change (default [] (Some (srv :: srvs))) with (srv :: srvs). cbn [no_routes].
  rewrite (list_fmap_ext
             (λ srv0, (send_request srv0 (method request) (req_headers request)
                         (forwarded request) w).1)
             (λ srv0, reply_of srv0 (method request) (req_headers request)
                        (forwarded request)) (srv :: srvs))
    by (intros; apply send_request_reply).
  match goal with
  | |- context [dispatch ?l ?m ?h ?d ?w1] =>
      rewrite <- (dispatch_replies l m h d w1);
      by destruct (dispatch l m h d w1) as [[results|e] w2]
  end.
Qed.

(** A route with a single upstream: the handler answers with the
    status, the headers and the body of the upstream's reply when the
    call succeeds; with 502, no header and the body marked B when the
    connection is refused; with 502, no header and the body marked C
    when the reading of the body fails. *)
Theorem gateway_single_route (request : Request) (w : world) (srv : Upstream) :
  routing_table !! strip (match_info_service request) = Some [srv] →
  let sent := <[u "Host" := host_port srv]> (req_headers request) in
  let answer := session srv (method request) (url srv) sent (forwarded request) in
  (∀ resp payload,
     answer = Returns resp → resp_read resp = Returns payload →
     (handle request w).1
     = Returns (mkResponse (Bytes payload) (resp_status resp) (resp_headers resp)))
  ∧ (∀ e, answer = Raises e → is_ClientConnectorError e = true →
          (handle request w).1 = Returns (mkResponse (Bytes marker_B) 502 ∅))
  ∧ (∀ resp e, answer = Returns resp → resp_read resp = Raises e →
               is_IOError e = true →
               (handle request w).1 = Returns (mkResponse (Bytes marker_C) 502 ∅)).
Proof.
  intros Hroute sent answer.
  assert ((handle request w).1
          = r ← reply_of srv (method request) (req_headers request) (forwarded request);
            Returns (mkResponse (Bytes (body r)) (status r) (headers r))) as Hrun.
  { rewrite (gateway_collect _ _ _ Hroute) by done. simpl.
    rewrite send_request_reply. by destruct (reply_of _ _ _ _). }
  rewrite Hrun. unfold reply_of. fold sent. fold answer. split_and!.
  - intros resp payload -> Hread. simpl. by rewrite Hread.
  - intros e -> He. simpl. by rewrite He.
  - intros resp e -> Hread He. simpl. by rewrite Hread, He.
Qed.

(** Whatever the request and its outcome, the handler mints one
    identifier, leaves it in [TX], and every log record written while
    the request is handled, by the handler or by an outbound call,
    carries that identifier. *)
Theorem gateway_logs_carry_tx (request : Request) (w : world) :
  let id := SStr (uuid4_hex (minted w)) in
  ∃ evs,
    trace (handle request w).2 = trace w ++ evs
    ∧ logs_carry id evs
    ∧ head evs
      = Some (Log INFO "request"
                [("upstream"%string, SStr (strip (match_info_service request)));
                 ("tx"%string, id)])
    ∧ TX (handle request w).2 = id
    ∧ minted (handle request w).2 = S (minted w).
Proof.
  intros id. rewrite gateway_unfold. cbv zeta. fold id.
  destruct (no_routes _).
  - eexists. simpl. rewrite <- app_assoc. split; [reflexivity|].
    split_and!; try done. repeat constructor; done.
  - match goal with
    | |- context [dispatch ?srvs ?m ?h ?d ?w1] =>
        destruct (dispatch_trace srvs m h d w1) as (evs & Ht & Hl & _ & Htx & Hm);
        destruct (dispatch srvs m h d w1) as [[results|e] w2]
    end; simpl in *.
    all: eexists; rewrite Ht, <- app_assoc; (split; [reflexivity|]).
    all: split_and!; try done.
    all: apply Forall_cons; split; [done | exact Hl].
Qed.

(** The outbound calls of a request. Every call the handler makes goes
    to an upstream of the route of the trimmed key, for its URL, with
    the method of the request and with the body of the request when it
    has one, no body otherwise. For a request without a body, where
    nothing is read before the fan-out, these calls are exactly one per
    upstream of the route, in the order of the route, and none when
    there is no route. *)
Theorem gateway_calls (request : Request) (w : world) :
  let route := default [] (routing_table !! strip (match_info_service request)) in
  ∃ new,
    calls (trace (handle request w).2) = calls (trace w) ++ new
    ∧ Forall (λ call, ∃ srv, srv ∈ route
                ∧ call_target call
                  = Some (name srv, method request, url srv, forwarded request))
        new
    ∧ (body_exists request = false →
       call_target <$> new
       = (λ srv, Some (name srv, method request, url srv, None)) <$> route).
Proof.
  intros route.
  assert (∃ new,
            calls (trace (handle request w).2) = calls (trace w) ++ new
            ∧ call_target <$> new
              = (λ srv, Some (name srv, method request, url srv,
                              forwarded request)) <$> route)
    as (new & Hnew & Htargets).
  { rewrite gateway_unfold. cbv zeta. subst route.
    destruct (no_routes _) eqn:Hno.
    - exists []. simpl. rewrite !calls_app. simpl.
      destruct (routing_table !! _) as [[|srv srvs]|]; simpl in *;
        try done; by rewrite !app_nil_r.
    - match goal with
      | |- context [dispatch ?srvs ?m ?h ?d ?w1] =>
          destruct (dispatch_trace srvs m h d w1) as (evs & Ht & _ & Hc & _);
          destruct (dispatch srvs m h d w1) as [[results|e] w2]
      end; simpl in *.
      all: exists (calls evs); rewrite Ht, !calls_app; simpl;
        rewrite app_nil_r; (split; [done|]).
      all: rewrite Hc, <- list_fmap_compose; by apply list_fmap_ext. }
  exists new. split; [done|]. split.
  - apply Forall_forall. intros call Hin.
    assert (call_target call ∈ call_target <$> new) as Ht
      by (by apply list_elem_of_fmap_2).
    rewrite Htargets in Ht. apply list_elem_of_fmap in Ht as (srv & Heq & Hsrv).
    by exists srv.
  - intros Hbody. rewrite Htargets. by rewrite Hbody.
Qed.

(** Whitespace around the route key changes nothing: a request whose
    key is [core] with whitespace before and after it is handled as the
    request for [core]. *)
Theorem gateway_trims_key (ws1 core ws2 : str) (m : str) (hdrs : Headers)
    (has_body : bool) (payload : bytes) (w : world) :
  Forall (λ c, isspace c = true) ws1 →
  Forall (λ c, isspace c = true) ws2 →
  (∀ a, head core = Some a → isspace a = false) →
  (∀ z, last core = Some z → isspace z = false) →
  handle (mkRequest (ws1 ++ core ++ ws2) m hdrs has_body payload) w
  = handle (mkRequest core m hdrs has_body payload) w.
Proof.
  intros H1 H2 Hh Hl. rewrite !gateway_unfold. cbv zeta. simpl.
  rewrite (strip_around ws1 core ws2) by done.
  pose proof (strip_around [] core [] (Forall_nil_2 _) (Forall_nil_2 _) Hh Hl) as Hc.
  rewrite app_nil_r in Hc. simpl in Hc. by rewrite Hc.
Qed.

(** On a route with upstreams whose calls all come to a reply, what
    the handler returns or raises is the reconciliation of these
    replies, in the order of the route: it depends neither on the log
    nor on the identifier minted. *)
Theorem gateway_reconciles (request : Request) (w : world)
    (srvs : list Upstream) (results : list ApiResponse) :
  routing_table !! strip (match_info_service request) = Some srvs →
  srvs ≠ [] →
  Forall2 (λ srv r, (send_request srv (method request) (req_headers request)
                       (forwarded request) w).1 = Returns r) srvs results →
  (handle request w).1 = reconcile results.
Proof.
  intros Hroute Hne HF. rewrite (gateway_collect _ _ _ Hroute Hne).
  assert (collect ((λ srv, (send_request srv (method request)
                              (req_headers request) (forwarded request) w).1)
                   <$> srvs) = Returns results) as ->; [|done].
  apply collect_Forall2. by apply Forall2_fmap_l.
Qed.

(** For a request without a body, where nothing is read before the
    fan-out, the handler raises in two ways only: with the exception of
    an outbound call of the route that [send_request] does not catch,
    or, on a route with two upstreams or more whose calls all came to a
    reply, with the exception of [transform] on one of the replies. *)
Theorem gateway_raises (request : Request) (w : world) (e : exn) :
  body_exists request = false →
  (handle request w).1 = Raises e →
  ∃ srvs,
    routing_table !! strip (match_info_service request) = Some srvs
    ∧ ((∃ srv, srv ∈ srvs
               ∧ (send_request srv (method request) (req_headers request)
                    None w).1 = Raises e)
       ∨ ((2 ≤ length srvs)%nat
          ∧ ∃ results r,
              Forall2 (λ srv r, (send_request srv (method request)
                                   (req_headers request) None w).1
                                = Returns r) srvs results
              ∧ r ∈ results
              ∧ transform json_loads r = Raises e)).
Proof.
  intros Hbody Hr.
  destruct (routing_table !! strip (match_info_service request))
    as [[|srv srvs]|] eqn:Hroute.
  1,3: by rewrite gateway_unfold in Hr; cbv zeta in Hr; rewrite Hroute in Hr.
  exists (srv :: srvs). split; [done|].
  rewrite (gateway_collect _ _ _ Hroute) in Hr by done.
  rewrite Hbody in Hr.
  destruct (collect _) as [results|e'] eqn:Hc; cbn [mbind outcome_bind obind] in Hr.
  - right. apply collect_Forall2, Forall2_fmap_l in Hc.
    pose proof (Forall2_length _ _ _ Hc) as Hlen.
    destruct results as [|r0 [|r1 rest]]; [done..|].
    split; [simpl in *; lia|].
    rewrite reconcile_many in Hr.
    destruct (transform_all json_loads (r0 :: r1 :: rest) []) as [payload|e0]
      eqn:Hall; cbn [mbind outcome_bind obind] in Hr; [done|].
    injection Hr as ->.
    apply transform_all_raises in Hall as (r & Hin & Ht).
    by exists (r0 :: r1 :: rest), r.
  - left. injection Hr as ->.
    apply collect_raises in Hc as (before & after & Heq & _).
    assert (Raises e ∈ (λ srv0, (send_request srv0 (method request)
                                   (req_headers request) None w).1)
                       <$> srv :: srvs) as Hin.
    { rewrite Heq. apply elem_of_app. right. apply list_elem_of_here. }
    apply list_elem_of_fmap in Hin as (srv' & He & Hin). by exists srv'.
Qed.
End GatewayExtras.

(** ** The declared routes *)

Section DeclaredRoutes.
Variable json_loads : bytes → outcome value.
Variable json_dumps : value → str.
Variable uuid4_hex : nat → str.
Variable default_connection : Session.

Local Abbreviation table := (routing_table default_connection).
Local Abbreviation handle := (gateway json_loads json_dumps uuid4_hex table).

(** Every declared route has an upstream, and the upstreams of a
    route have pairwise distinct names and pairwise distinct
    addresses. *)
Lemma routing_table_routes (key : str) (srvs : list Upstream) :
  table !! key = Some srvs →
  srvs ≠ [] ∧ NoDup (name <$> srvs) ∧ NoDup (url <$> srvs).
Proof.
  unfold routing_table. intros Hkey.
  repeat (apply lookup_insert_Some in Hkey as [[_ <-]|[_ Hkey]]);
    [..|by rewrite lookup_empty in Hkey].
  all: split; [done|].
  all: split; apply (bool_decide_unpack _); vm_compute; exact I.
Qed.

(** A run of the handler on the route [grouped] that returns: the
    three replies, what [transform] made of them, and the dict handed
    to [json.dumps]. *)
Lemma grouped_run (request : Request) (w : world) (resp : Response) :
  strip (match_info_service request) = u "grouped" →
  (handle request w).1 = Returns resp →
  ∃ r1 r2 r3 v1 v2 v3,
    (send_request (service_a default_connection) (method request)
       (req_headers request)
       (if body_exists request then Some (req_body request) else None) w).1
    = Returns r1
    ∧ (send_request (service_b default_connection) (method request)
         (req_headers request)
         (if body_exists request then Some (req_body request) else None) w).1
      = Returns r2
    ∧ (send_request (service_c default_connection) (method request)
         (req_headers request)
         (if body_exists request then Some (req_body request) else None) w).1
      = Returns r3
    ∧ transform json_loads r1 = Returns v1
    ∧ transform json_loads r2 = Returns v2
    ∧ transform json_loads r3 = Returns v3
    ∧ r_body resp
      = Text (json_dumps (VDict [(u "service1", v1); (u "service2", v2);
                                 (u "service3", v3)])).
Proof.
  intros Hkey Hres.
  assert (table !! strip (match_info_service request)
          = Some [service_a default_connection; service_b default_connection;
                  service_c default_connection]) as Hroute.
  { rewrite Hkey. unfold routing_table. apply lookup_insert_eq. }
  rewrite (gateway_collect _ _ _ _ _ _ _ Hroute) in Hres by done.
  destruct (collect _) as [results|e] eqn:Hc; [|done].
  cbn [mbind outcome_bind obind] in Hres.
  apply collect_Forall2 in Hc. rewrite !fmap_cons, fmap_nil in Hc.
  apply Forall2_cons_inv_l in Hc as (r1 & rest1 & H1 & Hc & ->).
  apply Forall2_cons_inv_l in Hc as (r2 & rest2 & H2 & Hc & ->).
  apply Forall2_cons_inv_l in Hc as (r3 & rest3 & H3 & Hc & ->).
  apply Forall2_nil_inv_l in Hc as ->.
  pose proof H1 as N1. pose proof H2 as N2. pose proof H3 as N3.
  rewrite send_request_reply in N1, N2, N3.
  apply reply_of_name in N1, N2, N3.
  assert (NoDup (rname <$> [r1; r2; r3])) as Hnd.
  { rewrite !fmap_cons, fmap_nil, N1, N2, N3.
    apply (bool_decide_unpack _). vm_compute. exact I. }
  destruct (reconcile_many_inv json_loads json_dumps [r1; r2; r3] resp
              ltac:(simpl; lia) Hres) as (r0 & rest & payload0 & Hr0 & Hall & ->).
  destruct (transform_all_ordered json_loads _ _ _ Hall Hnd)
    as (payload & -> & HF).
  assert (r_body (mkResponse (Text (json_dumps (VDict ([] ++ payload))))
                    (status (min_from status r0 rest))
                    (delete (u "Content-Length") (headers r0)))
          = Text (json_dumps (VDict payload))) as Hbody by done.
  apply Forall2_cons_inv_l in HF as ([k1 v1] & p1 & [K1 T1] & HF & ->).
  apply Forall2_cons_inv_l in HF as ([k2 v2] & p2 & [K2 T2] & HF & ->).
  apply Forall2_cons_inv_l in HF as ([k3 v3] & p3 & [K3 T3] & HF & ->).
  apply Forall2_nil_inv_l in HF as ->.
  simpl in K1, K2, K3, T1, T2, T3. rewrite N1 in K1. rewrite N2 in K2.
  rewrite N3 in K3. subst k1 k2 k3.
  exists r1, r2, r3, v1, v2, v3. by split_and!.
Qed.

(** Whatever the upstreams answer, the body of a reply to a request
    for the route [grouped] is the JSON text of an object whose keys
    are [service1], [service2] and [service3], in this order, each
    with what [transform] made of the reply of that upstream. *)
Theorem gateway_grouped_keys (request : Request) (w : world) (resp : Response) :
  strip (match_info_service request) = u "grouped" →
  (handle request w).1 = Returns resp →
  ∃ r1 r2 r3 v1 v2 v3,
    (send_request (service_a default_connection) (method request)
       (req_headers request)
       (if body_exists request then Some (req_body request) else None) w).1
    = Returns r1
    ∧ (send_request (service_b default_connection) (method request)
         (req_headers request)
         (if body_exists request then Some (req_body request) else None) w).1
      = Returns r2
    ∧ (send_request (service_c default_connection) (method request)
         (req_headers request)
         (if body_exists request then Some (req_body request) else None) w).1
      = Returns r3
    ∧ transform json_loads r1 = Returns v1
    ∧ transform json_loads r2 = Returns v2
    ∧ transform json_loads r3 = Returns v3
    ∧ r_body resp
      = Text (json_dumps (VDict [(u "service1", v1); (u "service2", v2);
                                 (u "service3", v3)])).
Proof. apply grouped_run. Qed.
End DeclaredRoutes.

Section DeclaredText.
Variable json_loads : bytes → outcome value.
Variable floatstr : str → str.
Hypothesis floatstr_token : ∀ literal, Json.float_token (floatstr literal).
Variable uuid4_hex : nat → str.
Variable default_connection : Session.

(** Whatever the upstreams answer, the body of a reply to a request
    for the route [grouped], parsed as JSON, is an object with the keys
    [service1], [service2] and [service3], in this order: the encoder
    of [json.dumps] writes it, with any [float.__repr__] that gives a
    number or one of [NaN], [Infinity], [-Infinity], and the scanner of
    [json.loads] reads it. *)
Theorem gateway_grouped_parsed (request : Request) (w : world) (resp : Response) :
  strip (match_info_service request) = u "grouped" →
  (gateway json_loads (Json.iterencode floatstr) uuid4_hex
     (routing_table default_connection) request w).1 = Returns resp →
  ∃ text v1 v2 v3,
    r_body resp = Text text
    ∧ Json.decode text
      = Returns (VDict [(u "service1", v1); (u "service2", v2);
                        (u "service3", v3)]).
Proof.
  intros Hkey Hres.
  destruct (grouped_run _ _ _ _ _ _ _ Hkey Hres)
    as (r1 & r2 & r3 & t1 & t2 & t3 & _ & _ & _ & _ & _ & _ & Hbody).
  destruct (decode_encoded_object floatstr floatstr_token
              [(u "service1", t1); (u "service2", t2); (u "service3", t3)])
    as (items' & HF & Hdecode).
  apply Forall2_cons_inv_l in HF as ([k1 v1] & p1 & [a1 S1] & HF & ->).
  apply Forall2_cons_inv_l in HF as ([k2 v2] & p2 & [a2 S2] & HF & ->).
  apply Forall2_cons_inv_l in HF as ([k3 v3] & p3 & [a3 S3] & HF & ->).
  apply Forall2_nil_inv_l in HF as ->. cbn [fst] in S1, S2, S3.
  rewrite scanstring_escaped_plain in S1, S2, S3
    by (repeat (apply Forall_cons_2 || apply Forall_nil_2); reflexivity).
  injection S1 as <-. injection S2 as <-. injection S3 as <-.
  eexists _, v1, v2, v3. split; [exact Hbody|]. by rewrite Hdecode.
Qed.
End DeclaredText.

(** ** A route that is down *)

Section Outage.
Variable json_dumps : value → str.
Variable uuid4_hex : nat → str.
Variable routing_table : gmap (list N) (list Upstream).

Local Abbreviation handle := (gateway Json.loads json_dumps uuid4_hex routing_table).

(** The entry of an upstream that refused the connection. *)
Local Abbreviation refused :=
  (VDict [(u "error",
           VStr (u "Bad gateway #trace=0cf36ac4-b79e-4b74-85f1-fc823822c743"))]).

Lemma transform_refused (n : str) :
  transform Json.loads (mkApiResponse marker_B 502 ∅ n) = Returns refused.
Proof. vm_compute. reflexivity. Qed.

(** When every upstream of a route with two upstreams or more, under
    pairwise distinct names, refuses the connection, the handler
    answers 502 without headers, and the body is the JSON text of an
    object that has, for each upstream in the order of the route, its
    name with [{"error": "Bad gateway #trace=...c743"}]. *)
Theorem gateway_all_refused (request : Request) (w : world)
    (srvs : list Upstream) :
  routing_table !! strip (match_info_service request) = Some srvs →
  (2 ≤ length srvs)%nat →
  NoDup (name <$> srvs) →
  Forall (λ srv, ∃ e,
            session srv (method request) (url srv)
              (<[u "Host" := host_port srv]> (req_headers request))
              (if body_exists request then Some (req_body request) else None)
            = Raises e
            ∧ is_ClientConnectorError e = true) srvs →
  (handle request w).1
  = Returns (mkResponse
               (Text (json_dumps (VDict ((λ srv, (name srv, refused)) <$> srvs))))
               502 ∅).
Proof.
  intros Hroute Hlen Hnd Hdown.
  set (results := (λ srv, mkApiResponse marker_B 502 ∅ (name srv)) <$> srvs).
  assert (rname <$> results = name <$> srvs) as Hnames
    by (unfold results; by rewrite <- list_fmap_compose).
  rewrite (gateway_collect _ _ _ _ _ _ srvs Hroute)
    by (intros ->; simpl in Hlen; lia).
  assert (collect ((λ srv, (send_request srv (method request)
                              (req_headers request)
                              (if body_exists request
                               then Some (req_body request) else None) w).1)
                   <$> srvs) = Returns results) as ->.
  { apply collect_Forall2, Forall2_fmap_l.
    unfold results. apply Forall2_fmap_r, Forall_Forall2_diag.
    eapply Forall_impl; [exact Hdown|]. intros srv (e & Hs & He). simpl.
    rewrite send_request_reply. unfold reply_of. by rewrite Hs, He. }
  cbn [mbind outcome_bind obind].
  assert (Forall (λ r, ∃ v, transform Json.loads r = Returns v) results) as Hret.
  { unfold results. apply Forall_fmap, Forall_forall. intros srv _. simpl.
    eexists. apply transform_refused. }
  destruct (transform_all_returns Json.loads results [] Hret) as [payload Hall].
  destruct (transform_all_ordered Json.loads results [] payload Hall)
    as (entries & -> & HF); [simpl; by rewrite Hnames|].
  assert (entries = (λ srv, (name srv, refused)) <$> srvs) as ->.
  { apply list_eq_Forall2, Forall2_flip, Forall2_fmap_l.
    unfold results in HF. apply Forall2_fmap_l in HF.
    eapply Forall2_impl; [exact HF|]. intros srv [k v] [Hk Hv]. simpl in *.
    rewrite transform_refused in Hv. by injection Hv as <-; subst k. }
  simpl in Hall.
  assert (Forall (λ r, status r = 502 ∧ headers r = ∅) results) as Hst.
  { unfold results. apply Forall_fmap, Forall_forall. by intros srv _. }
  destruct results as [|r0 [|r1 rest]] eqn:Hres.
  1,2: apply (f_equal length) in Hnames; rewrite !length_fmap in Hnames;
       simpl in Hnames; lia.
  rewrite reconcile_many, Hall. cbn [mbind outcome_bind obind].
  rewrite Forall_forall in Hst.
  destruct (Hst _ (min_from_elem_of status r0 (r1 :: rest))) as [-> _].
  destruct (Hst r0 (list_elem_of_here _ _)) as [_ ->].
  by rewrite delete_empty.
Qed.
End Outage.

(** ** Runs on the sample upstreams *)

Section ExtraRuns.
Import Samples.

Lemma send_request_success_witness :
  session (service_a network) (u "GET") (url (service_a network))
    (<[u "Host" := host_port (service_a network)]> ∅) None
  = Returns (mkClientResponse 200 (headers reply_a) (Returns (body reply_a)))
  ∧ resp_read (mkClientResponse 200 (headers reply_a) (Returns (body reply_a)))
    = Returns (body reply_a)
  ∧ ∃ call w',
      send_request (service_a network) (u "GET") ∅ None world0
      = (Returns reply_a, w')
      ∧ call ∈ trace w'
      ∧ call_target call
        = Some (u "service1", u "GET", u "http://0.0.0.0:9091/api/test", None)
      ∧ call_header (u "Host") call = Some (u "0.0.0.0:9091").
Proof.
  assert (session (service_a network) (u "GET") (url (service_a network))
            (<[u "Host" := host_port (service_a network)]> ∅) None
          = Returns (mkClientResponse 200 (headers reply_a)
                       (Returns (body reply_a)))) as Hs
    by (vm_compute; reflexivity).
  split; [exact Hs|]. split; [reflexivity|].
  destruct (send_request_success (service_a network) (u "GET") ∅ None world0
              (mkClientResponse 200 (headers reply_a) (Returns (body reply_a)))
              (body reply_a) Hs eq_refl) as (call & Hrun & Htarget & Hhost).
  exists call. eexists. split; [exact Hrun|]. split.
  - simpl. apply elem_of_cons. right. apply list_elem_of_here.
  - split; [exact Htarget | exact Hhost].
Defined.

Lemma send_request_raises_witness :
  session service_f (u "GET") (url service_f)
    (<[u "Host" := host_port service_f]> ∅) None
  = Raises (OtherError "ServerDisconnectedError")
  ∧ is_ClientConnectorError (OtherError "ServerDisconnectedError") = false
  ∧ (send_request service_f (u "GET") ∅ None world0).1
    = Raises (OtherError "ServerDisconnectedError").
Proof.
  split; [reflexivity|]. split; [reflexivity|].
  apply (proj2 (send_request_raises service_f (u "GET") ∅ None world0
                  (OtherError "ServerDisconnectedError"))).
  left. split; reflexivity.
Defined.

Lemma dispatch_raises_witness :
  service_f ∈ [service_a network; service_f]
  ∧ (send_request service_f (u "GET") ∅ None world0).1
    = Raises (OtherError "ServerDisconnectedError")
  ∧ ∃ e', (dispatch [service_a network; service_f] (u "GET") ∅ None world0).1
          = Raises e'.
Proof.
  assert (service_f ∈ [service_a network; service_f]) as Hin
    by (apply elem_of_cons; right; apply list_elem_of_here).
  split; [exact Hin|]. split; [vm_compute; reflexivity|].
  apply (proj2 (dispatch_raises [service_a network; service_f] (u "GET") ∅ None
                  world0)
           service_f (OtherError "ServerDisconnectedError") Hin).
  vm_compute. reflexivity.
Defined.

Lemma gateway_reconciles_witness :
  routing_table network !! strip (match_info_service (get " grouped "))
  = Some [service_a network; service_b network; service_c network]
  ∧ [service_a network; service_b network; service_c network] ≠ []
  ∧ Forall2 (λ srv r, (send_request srv (u "GET") (<[u "Accept" := u "*/*"]> ∅)
                         None world0).1 = Returns r)
      [service_a network; service_b network; service_c network] grouped
  ∧ (gateway Json.loads Json.dumps sample_uuid (routing_table network)
       (get " grouped ") world0).1
    = reconcile Json.loads Json.dumps grouped.
Proof.
  assert (routing_table network !! strip (match_info_service (get " grouped "))
          = Some [service_a network; service_b network; service_c network])
    as Hroute by (vm_compute; reflexivity).
  assert (Forall2 (λ srv r, (send_request srv (u "GET")
                               (<[u "Accept" := u "*/*"]> ∅) None world0).1
                            = Returns r)
            [service_a network; service_b network; service_c network] grouped)
    as Hall
    by (repeat (apply Forall2_cons_2 || apply Forall2_nil_2);
        vm_compute; reflexivity).
  split; [exact Hroute|]. split; [discriminate|]. split; [exact Hall|].
  apply (gateway_reconciles Json.loads Json.dumps sample_uuid
           (routing_table network) (get " grouped ") world0
           [service_a network; service_b network; service_c network] grouped
           Hroute); [discriminate | exact Hall].
Defined.

Lemma gateway_single_route_witness :
  wider_table !! strip (match_info_service (get " service1 "))
  = Some [service_a network]
  ∧ wider_table !! strip (match_info_service (get "service2"))
    = Some [service_b network]
  ∧ wider_table !! strip (match_info_service (get "broken")) = Some [service_d]
  ∧ (gateway Json.loads Json.dumps sample_uuid wider_table
       (get " service1 ") world0).1
    = Returns (mkResponse (Bytes (body reply_a)) 200 (headers reply_a))
  ∧ (gateway Json.loads Json.dumps sample_uuid wider_table
       (get "service2") world0).1
    = Returns (mkResponse (Bytes marker_B) 502 ∅)
  ∧ (gateway Json.loads Json.dumps sample_uuid wider_table
       (get "broken") world0).1
    = Returns (mkResponse (Bytes marker_C) 502 ∅).
Proof.
  assert (wider_table !! strip (match_info_service (get " service1 "))
          = Some [service_a network]) as H1 by (vm_compute; reflexivity).
  assert (wider_table !! strip (match_info_service (get "service2"))
          = Some [service_b network]) as H2 by (vm_compute; reflexivity).
  assert (wider_table !! strip (match_info_service (get "broken"))
          = Some [service_d]) as H3 by (vm_compute; reflexivity).
  split; [exact H1|]. split; [exact H2|]. split; [exact H3|].
  split; [|split].
  - destruct (gateway_single_route Json.loads Json.dumps sample_uuid wider_table
                (get " service1 ") world0 (service_a network) H1) as (Ha & _ & _).
    apply (Ha (mkClientResponse 200 (headers reply_a) (Returns (body reply_a)))
              (body reply_a)); [vm_compute; reflexivity | reflexivity].
  - destruct (gateway_single_route Json.loads Json.dumps sample_uuid wider_table
                (get "service2") world0 (service_b network) H2) as (_ & Hb & _).
    apply (Hb ClientConnectorError); [vm_compute; reflexivity | reflexivity].
  - destruct (gateway_single_route Json.loads Json.dumps sample_uuid wider_table
                (get "broken") world0 service_d H3) as (_ & _ & Hc).
    apply (Hc (mkClientResponse 200 ∅ (Raises IOError)) IOError);
      [vm_compute; reflexivity | reflexivity | reflexivity].
Defined.

Lemma gateway_trims_key_witness :
  Forall (λ c, isspace c = true) [32%N; 9%N]
  ∧ Forall (λ c, isspace c = true) [10%N]
  ∧ (∀ a, head (u "grouped") = Some a → isspace a = false)
  ∧ (∀ z, last (u "grouped") = Some z → isspace z = false)
  ∧ gateway Json.loads Json.dumps sample_uuid (routing_table network)
      (mkRequest ([32%N; 9%N] ++ u "grouped" ++ [10%N]) (u "POST") ∅ true (b "{}"))
      world0
    = gateway Json.loads Json.dumps sample_uuid (routing_table network)
        (mkRequest (u "grouped") (u "POST") ∅ true (b "{}")) world0.
Proof.
  assert (Forall (λ c, isspace c = true) [32%N; 9%N]) as Hl
    by (repeat (apply Forall_cons_2 || apply Forall_nil_2); reflexivity).
  assert (Forall (λ c, isspace c = true) [10%N]) as Hr
    by (repeat (apply Forall_cons_2 || apply Forall_nil_2); reflexivity).
  assert (∀ a, head (u "grouped") = Some a → isspace a = false) as Hh
    by (intros a Ha; vm_compute in Ha; injection Ha as <-; reflexivity).
  assert (∀ z, last (u "grouped") = Some z → isspace z = false) as Hz
    by (intros z Hz; vm_compute in Hz; injection Hz as <-; reflexivity).
  split; [exact Hl|]. split; [exact Hr|]. split; [exact Hh|]. split; [exact Hz|].
  exact (gateway_trims_key Json.loads Json.dumps sample_uuid
           (routing_table network) [32%N; 9%N] (u "grouped") [10%N] (u "POST") ∅
           true (b "{}") world0 Hl Hr Hh Hz).
Defined.

Lemma gateway_raises_witness :
  body_exists (get "binary") = false
  ∧ (gateway Json.loads Json.dumps sample_uuid wider_table (get "binary")
       world0).1
    = Raises UnicodeDecodeError
  ∧ ∃ srvs,
      wider_table !! strip (match_info_service (get "binary")) = Some srvs
      ∧ ((∃ srv, srv ∈ srvs
                 ∧ (send_request srv (method (get "binary"))
                      (req_headers (get "binary")) None world0).1
                   = Raises UnicodeDecodeError)
         ∨ ((2 ≤ length srvs)%nat
            ∧ ∃ results r,
                Forall2 (λ srv r, (send_request srv (method (get "binary"))
                                     (req_headers (get "binary")) None world0).1
                                  = Returns r) srvs results
                ∧ r ∈ results
                ∧ transform Json.loads r = Raises UnicodeDecodeError)).
Proof.
  assert ((gateway Json.loads Json.dumps sample_uuid wider_table (get "binary")
             world0).1 = Raises UnicodeDecodeError) as Hrun
    by (vm_compute; reflexivity).
  split; [reflexivity|]. split; [exact Hrun|].
  exact (gateway_raises Json.loads Json.dumps sample_uuid wider_table
           (get "binary") world0 UnicodeDecodeError eq_refl Hrun).
Defined.

Lemma gateway_calls_witness :
  body_exists (get " grouped ") = false
  ∧ ∃ new,
      calls (trace (gateway Json.loads Json.dumps sample_uuid
                      (routing_table network) (get " grouped ") world0).2)
      = calls (trace world0) ++ new
      ∧ call_target <$> new
        = [Some (u "service1", u "GET", u "http://0.0.0.0:9091/api/test", None);
           Some (u "service2", u "GET", u "http://0.0.0.0:9092/api/test", None);
           Some (u "service3", u "GET", u "http://0.0.0.0:9093/api/test", None)].
Proof.
  split; [reflexivity|].
  destruct (gateway_calls Json.loads Json.dumps sample_uuid
              (routing_table network) (get " grouped ") world0)
    as (new & Hnew & _ & Hall).
  exists new. split; [exact Hnew|].
  rewrite (Hall eq_refl). vm_compute. reflexivity.
Defined.

Lemma reconcile_last_wins_witness :
  (2 ≤ length [reply_b; reply_a; reply_b'])%nat
  ∧ reconcile Json.loads Json.dumps [reply_b; reply_a; reply_b']
    = Returns (mkResponse
                 (Text (Json.dumps
                          (VDict [(u "service2", VList [VInt 1; VInt 2]);
                                  (u "service1", VList [VInt 1; VInt 2])])))
                 200 ∅)
  ∧ ∃ payload,
      Text (Json.dumps (VDict [(u "service2", VList [VInt 1; VInt 2]);
                               (u "service1", VList [VInt 1; VInt 2])]))
      = Text (Json.dumps (VDict payload))
      ∧ dict_keys payload = [u "service2"; u "service1"]
      ∧ ∀ before r after,
          [reply_b; reply_a; reply_b'] = before ++ r :: after →
          rname r ∉ rname <$> after →
          ∃ v, transform Json.loads r = Returns v
               ∧ dict_get (rname r) payload = Some v.
Proof.
  assert (reconcile Json.loads Json.dumps [reply_b; reply_a; reply_b']
          = Returns (mkResponse
                       (Text (Json.dumps
                                (VDict [(u "service2", VList [VInt 1; VInt 2]);
                                        (u "service1", VList [VInt 1; VInt 2])])))
                       200 ∅)) as Hrun by (vm_compute; reflexivity).
  split; [simpl; lia|]. split; [exact Hrun|].
  destruct (reconcile_last_wins Json.loads Json.dumps [reply_b; reply_a; reply_b']
              _ ltac:(simpl; lia) Hrun) as (payload & Hbody & Hkeys & Hlast).
  exists payload. split; [exact Hbody|]. split; [|exact Hlast].
  rewrite Hkeys. vm_compute. reflexivity.
Defined.

Lemma reconcile_ordered_witness :
  (2 ≤ length grouped)%nat
  ∧ NoDup (rname <$> grouped)
  ∧ reconcile Json.loads Json.dumps grouped = Returns grouped_reply
  ∧ ∃ payload,
      r_body grouped_reply = Text (Json.dumps (VDict payload))
      ∧ Forall2 (λ r kv, kv.1 = rname r ∧ transform Json.loads r = Returns kv.2)
          grouped payload.
Proof.
  assert (NoDup (rname <$> grouped)) as Hnd
    by (apply (bool_decide_unpack _); vm_compute; exact I).
  assert (reconcile Json.loads Json.dumps grouped = Returns grouped_reply) as Hrun
    by (vm_compute; reflexivity).
  split; [simpl; lia|]. split; [exact Hnd|]. split; [exact Hrun|].
  apply (reconcile_ordered Json.loads Json.dumps grouped grouped_reply);
    [simpl; lia | exact Hnd | exact Hrun].
Defined.

Lemma reconcile_raises_witness :
  [reply_a; reply_bin] ≠ []
  ∧ reconcile Json.loads Json.dumps [reply_a; reply_bin]
    = Raises UnicodeDecodeError.
Proof.
  split; [discriminate|].
  apply (proj2 (reconcile_raises Json.loads Json.dumps [reply_a; reply_bin]
                  UnicodeDecodeError ltac:(discriminate))).
  split; [simpl; lia|]. exists [reply_a], reply_bin, []. split; [reflexivity|].
  split.
  - right. split; [reflexivity|]. split; [|vm_compute; reflexivity].
    exists UnicodeDecodeError. split; vm_compute; reflexivity.
  - intros r' Hin. apply list_elem_of_singleton in Hin as ->.
    eexists. vm_compute. reflexivity.
Defined.

Lemma gateway_grouped_keys_witness :
  strip (match_info_service (get " grouped ")) = u "grouped"
  ∧ (gateway Json.loads Json.dumps sample_uuid (routing_table network)
       (get " grouped ") world0).1 = Returns grouped_reply
  ∧ ∃ r1 r2 r3 v1 v2 v3,
      (send_request (service_a network) (u "GET") (<[u "Accept" := u "*/*"]> ∅)
         None world0).1 = Returns r1
      ∧ (send_request (service_b network) (u "GET") (<[u "Accept" := u "*/*"]> ∅)
           None world0).1 = Returns r2
      ∧ (send_request (service_c network) (u "GET") (<[u "Accept" := u "*/*"]> ∅)
           None world0).1 = Returns r3
      ∧ transform Json.loads r1 = Returns v1
      ∧ transform Json.loads r2 = Returns v2
      ∧ transform Json.loads r3 = Returns v3
      ∧ r_body grouped_reply
        = Text (Json.dumps (VDict [(u "service1", v1); (u "service2", v2);
                                   (u "service3", v3)])).
Proof.
  assert (strip (match_info_service (get " grouped ")) = u "grouped") as Hkey
    by (vm_compute; reflexivity).
  assert ((gateway Json.loads Json.dumps sample_uuid (routing_table network)
             (get " grouped ") world0).1 = Returns grouped_reply) as Hrun
    by (vm_compute; reflexivity).
  split; [exact Hkey|]. split; [exact Hrun|].
  exact (gateway_grouped_keys Json.loads Json.dumps sample_uuid network
           (get " grouped ") world0 grouped_reply Hkey Hrun).
Defined.

Lemma gateway_all_refused_witness :
  routing_table network_down !! strip (match_info_service (get " grouped "))
  = Some [service_a network_down; service_b network_down; service_c network_down]
  ∧ (2 ≤ length [service_a network_down; service_b network_down;
                 service_c network_down])%nat
  ∧ NoDup (name <$> [service_a network_down; service_b network_down;
                     service_c network_down])
  ∧ (gateway Json.loads Json.dumps sample_uuid (routing_table network_down)
       (get " grouped ") world0).1
    = Returns
        (mkResponse
           (Text (Json.dumps
                    (VDict ((λ srv,
                               (name srv,
                                VDict [(u "error",
                                        VStr (u "Bad gateway #trace=0cf36ac4-b79e-4b74-85f1-fc823822c743"))]))
                            <$> [service_a network_down; service_b network_down;
                                 service_c network_down]))))
           502 ∅).
Proof.
  assert (routing_table network_down
            !! strip (match_info_service (get " grouped "))
          = Some [service_a network_down; service_b network_down;
                  service_c network_down]) as Hroute
    by (vm_compute; reflexivity).
  assert (NoDup (name <$> [service_a network_down; service_b network_down;
                           service_c network_down])) as Hnd
    by (apply (bool_decide_unpack _); vm_compute; exact I).
  split; [exact Hroute|]. split; [simpl; lia|]. split; [exact Hnd|].
  apply (gateway_all_refused Json.dumps sample_uuid (routing_table network_down)
           (get " grouped ") world0
           [service_a network_down; service_b network_down; service_c network_down]
           Hroute); [simpl; lia | exact Hnd |].
  repeat (apply Forall_cons_2 || apply Forall_nil_2);
    exists ClientConnectorError; split; reflexivity.
Defined.

Lemma literal_repr_token (literal : str) :
  Json.float_token (literal_repr literal).
Proof.
  unfold literal_repr.
  destruct (Json.match_number literal) as [[[[integer frac] exp] [|c r]]|] eqn:Hm.
  - left. by exists integer, frac, exp.
  - right. by left.
  - right. by left.
Qed.


Lemma gateway_grouped_parsed_witness :
  (∀ literal, Json.float_token (literal_repr literal))
  ∧ strip (match_info_service (get " grouped ")) = u "grouped"
  ∧ (gateway Json.loads (Json.iterencode literal_repr) sample_uuid
       (routing_table network) (get " grouped ") world0).1
    = Returns grouped_reply
  ∧ ∃ text v1 v2 v3,
      r_body grouped_reply = Text text
      ∧ Json.decode text
        = Returns (VDict [(u "service1", v1); (u "service2", v2);
                          (u "service3", v3)]).
Proof.
  assert (strip (match_info_service (get " grouped ")) = u "grouped") as Hkey
    by (vm_compute; reflexivity).
  assert ((gateway Json.loads (Json.iterencode literal_repr) sample_uuid
             (routing_table network) (get " grouped ") world0).1
          = Returns grouped_reply) as Hrun by (vm_compute; reflexivity).
  split; [exact literal_repr_token|]. split; [exact Hkey|]. split; [exact Hrun|].
  exact (gateway_grouped_parsed Json.loads literal_repr literal_repr_token
           sample_uuid network (get " grouped ") world0 grouped_reply Hkey Hrun).
Defined.
End ExtraRuns.
